(** * Playback engine of muse: [src/services/player.ts]

    A shallow embedding of the player class: the playback state machine
    ([play], [pause], [seek], the end-of-track listener), the position
    tracker built on [setInterval], the file cache ([isCached],
    [waitForCache], the temp-file-then-rename writer of [getStream]) and
    the format selection of [getStream].

    JavaScript numbers that hold whole seconds, counters and bitrates are
    [Z]; [undefined] is [None]; the player object together with the
    pieces of the outside world it touches (timers, file system, the
    queue object) is one record threaded through a state-and-exception
    monad.  An async method runs to completion as one step; the only
    interleaving that is modelled is what happens to the cache files
    while [waitForCache] sits between two firings of its interval, given
    to the method as a schedule of stream events. *)

From Stdlib Require Import ZArith String Ascii List Bool Lia Sorted.
From stdpp Require Import gmap strings.
Import ListNotations.

Local Open Scope string_scope.

(* ===================================================================== *)
(** * Paths: Node's [path.join] on POSIX                                  *)
(* ===================================================================== *)

Module Path.

(** Cut a string at every ['/'].  The accumulator [cur] holds the
    characters of the current segment in reverse. *)
Fixpoint split_acc (s : string) (cur : list ascii) : list string :=
  match s with
  | EmptyString => [string_of_list_ascii (rev cur)]
  | String c rest =>
      if Ascii.eqb c "/"%char
      then string_of_list_ascii (rev cur) :: split_acc rest []
      else split_acc rest (c :: cur)
  end.

Definition split (s : string) : list string := split_acc s [].

(** [normalizeString]: the stack [res] is kept in reverse.  Empty
    segments and ["."] are dropped; [".."] removes the last kept
    segment unless there is none or it is itself [".."], in which case
    it is kept only when the path is relative. *)
Fixpoint normalizeSegments (segs : list string) (allowAboveRoot : bool)
         (res : list string) : list string :=
  match segs with
  | [] => rev res
  | seg :: segs' =>
      if String.eqb seg "" || String.eqb seg "." then
        normalizeSegments segs' allowAboveRoot res
      else if String.eqb seg ".." then
        match res with
        | top :: res' =>
            if String.eqb top ".."
            then normalizeSegments segs' allowAboveRoot
                   (if allowAboveRoot then ".." :: res else res)
            else normalizeSegments segs' allowAboveRoot res'
        | [] =>
            normalizeSegments segs' allowAboveRoot
              (if allowAboveRoot then [".."] else [])
        end
      else normalizeSegments segs' allowAboveRoot (seg :: res)
  end.

Definition isAbsolute (p : string) : bool :=
  match p with
  | String c _ => Ascii.eqb c "/"%char
  | EmptyString => false
  end.

Fixpoint trailingSeparator (p : string) : bool :=
  match p with
  | EmptyString => false
  | String c EmptyString => Ascii.eqb c "/"%char
  | String _ rest => trailingSeparator rest
  end.

Definition normalize (p : string) : string :=
  if String.eqb p "" then "."
  else
    let abs := isAbsolute p in
    let body :=
      String.concat "/" (normalizeSegments (split p) (negb abs) []) in
    if String.eqb body "" then
      (if abs then "/" else if trailingSeparator p then "./" else ".")
    else
      let body' := if trailingSeparator p then body ++ "/" else body in
      if abs then "/" ++ body' else body'.

(** [path.join(a, b)]: empty arguments are skipped, the rest are glued
    with ['/'] and normalised. *)
Definition join (a b : string) : string :=
  if String.eqb a "" then
    (if String.eqb b "" then "." else normalize b)
  else if String.eqb b "" then normalize a
  else normalize (a ++ "/" ++ b).

End Path.

(* ===================================================================== *)
(** * Data model                                                          *)
(* ===================================================================== *)

(** [export enum STATUS]. *)
Inductive STATUS := PLAYING | PAUSED | DISCONNECTED.

(** What the code throws.  Each [new Error(msg)] of the source is one
    constructor, named after the error taxonomy of the specification;
    [TypeError] is the run-time error of reading a property of
    [undefined]; [RemoteError] is a rejection of [ytdl.getInfo];
    [RenameError] is a rejection of [fs.rename]. *)
Inductive Error :=
| NotConnectedError
| NoCurrentSongError
| EmptyQueueError
| NotPlayingError
| NoSuitableFormatError
| CacheTimeoutError
| TypeError
| RemoteError
| RenameError.

Definition message (e : Error) : string :=
  match e with
  | NotConnectedError => "Not connected to a voice channel."
  | NoCurrentSongError => "No song currently playing"
  | EmptyQueueError => "Queue empty."
  | NotPlayingError => "Not currently playing."
  | NoSuitableFormatError => "Can't find suitable format."
  | CacheTimeoutError => "Timed out waiting for file to become cached."
  | TypeError => "Cannot read property 'live' of undefined"
  | RemoteError => "getInfo rejected"
  | RenameError => "ENOENT: no such file or directory, rename"
  end.

(** [QueuedSong] (declared in ./queue): only [url] is read here. *)
Record QueuedSong := { url : string; title : string }.

(** The fields of [ytdl.videoFormat] that [getStream] reads.  Numeric
    fields that may be missing are [option Z]; [audioSampleRate] is a
    string in ytdl's typings and goes through [parseInt]. *)
Record videoFormat := {
  itag : Z;
  f_url : string;
  codecs : string;
  container : string;
  audioSampleRate : option string;
  audioBitrate : option Z;
  averageBitrate : option Z;
  bitrate : option Z;
  live : bool
}.

(** [ytdl.videoInfo]: [formats] and
    [player_response.videoDetails.isLiveContent]. *)
Record videoInfo := {
  formats : list videoFormat;
  isLiveContent : bool
}.

(** Byte streams, by how they were built. *)
Inductive Readable :=
| downloadFromInfo (format : videoFormat)
| ffmpegOpus (input : string) (inputOptions : list string)
| capacitorReadStream (piped : Readable).

(** The first argument of [voiceConnection.play]: a file path or a stream. *)
Inductive PlayInput :=
| FromPath (p : string)
| FromStream (r : Readable).

(** A [StreamDispatcher] as this class sees it. *)
Record StreamDispatcher := {
  d_input : PlayInput;
  d_seek : option Z;
  d_type : option string;
  d_paused : bool;
  d_speakingListeners : nat
}.

(** A [VoiceConnection]: whether it is still joined, and how many
    ['disconnect'] listeners this class has registered on it. *)
Record VoiceConnection := {
  vc_joined : bool;
  vc_disconnectListeners : nat
}.

(** The player object and the parts of the world it acts on. *)
Record State := mkState {
  (* fields of the class *)
  status : STATUS;
  cacheDir : string;
  voiceConnection : option VoiceConnection;
  dispatcher : option StreamDispatcher;
  playPositionInterval : option nat;
  positionInSeconds : Z;
  (* the queue object shared with the rest of the bot *)
  queue : list QueuedSong;
  (* Node's timers: handles of the intervals that are still armed *)
  timers : gset nat;
  nextTimer : nat;
  (* the file system, as the set of paths [fs.access] finds, and the
     cache write streams that are still open, each named by the url it
     was opened for *)
  fs : gset string;
  writers : list string
}.

Definition set_status (v : STATUS) (s : State) : State :=
  mkState v (cacheDir s) (voiceConnection s) (dispatcher s)
    (playPositionInterval s) (positionInSeconds s) (queue s) (timers s)
    (nextTimer s) (fs s) (writers s).

Definition set_voiceConnection (v : option VoiceConnection) (s : State) : State :=
  mkState (status s) (cacheDir s) v (dispatcher s)
    (playPositionInterval s) (positionInSeconds s) (queue s) (timers s)
    (nextTimer s) (fs s) (writers s).

Definition set_dispatcher (v : option StreamDispatcher) (s : State) : State :=
  mkState (status s) (cacheDir s) (voiceConnection s) v
    (playPositionInterval s) (positionInSeconds s) (queue s) (timers s)
    (nextTimer s) (fs s) (writers s).

Definition set_playPositionInterval (v : option nat) (s : State) : State :=
  mkState (status s) (cacheDir s) (voiceConnection s) (dispatcher s)
    v (positionInSeconds s) (queue s) (timers s)
    (nextTimer s) (fs s) (writers s).

Definition set_positionInSeconds (v : Z) (s : State) : State :=
  mkState (status s) (cacheDir s) (voiceConnection s) (dispatcher s)
    (playPositionInterval s) v (queue s) (timers s)
    (nextTimer s) (fs s) (writers s).

Definition set_queue (v : list QueuedSong) (s : State) : State :=
  mkState (status s) (cacheDir s) (voiceConnection s) (dispatcher s)
    (playPositionInterval s) (positionInSeconds s) v (timers s)
    (nextTimer s) (fs s) (writers s).

Definition set_timers (v : gset nat) (n : nat) (s : State) : State :=
  mkState (status s) (cacheDir s) (voiceConnection s) (dispatcher s)
    (playPositionInterval s) (positionInSeconds s) (queue s) v
    n (fs s) (writers s).

Definition set_fs (v : gset string) (s : State) : State :=
  mkState (status s) (cacheDir s) (voiceConnection s) (dispatcher s)
    (playPositionInterval s) (positionInSeconds s) (queue s) (timers s)
    (nextTimer s) v (writers s).

Definition set_writers (v : list string) (s : State) : State :=
  mkState (status s) (cacheDir s) (voiceConnection s) (dispatcher s)
    (playPositionInterval s) (positionInSeconds s) (queue s) (timers s)
    (nextTimer s) (fs s) v.

(** [new Player(queue, cacheDir)]: the field initialisers of the class,
    in a world with no timer armed and the given files. *)
Definition newPlayer (q : list QueuedSong) (dir : string)
           (files : gset string) : State :=
  mkState DISCONNECTED dir None None None 0%Z q ∅ 0 files [].

(* ===================================================================== *)
(** * The monad of methods: state, exceptions, and a wait that may still
      be pending                                                          *)
(* ===================================================================== *)

(** A method either returns, throws (an async method: rejects), or — for
    the ones that wait on a timer — has not settled yet when the observed
    run of timer firings ends. *)
Inductive Res (A : Type) :=
| Ok (a : A)
| Throw (e : Error)
| Pending.
Arguments Ok {A} a.
Arguments Throw {A} e.
Arguments Pending {A}.

Definition M (A : Type) : Type := State -> Res A * State.

Definition ret {A} (a : A) : M A := fun s => (Ok a, s).
Definition throw {A} (e : Error) : M A := fun s => (Throw e, s).
Definition bind {A B} (m : M A) (k : A -> M B) : M B :=
  fun s =>
    match m s with
    | (Ok a, s') => k a s'
    | (Throw e, s') => (Throw e, s')
    | (Pending, s') => (Pending, s')
    end.
Definition get {A} (proj : State -> A) : M A := fun s => (Ok (proj s), s).
Definition modify (f : State -> State) : M unit := fun s => (Ok tt, f s).

Declare Scope js_scope.
Delimit Scope js_scope with js.
Notation "'let*' x ':=' m 'in' k" := (bind m (fun x => k))
  (at level 10, x name, m at level 100, k at level 200) : js_scope.
Notation "'exec' m 'in' k" := (bind m (fun _ => k))
  (at level 10, m at level 100, k at level 200) : js_scope.

(* ===================================================================== *)
(** * JavaScript helpers                                                  *)
(* ===================================================================== *)

Module JS.

(** Truthiness of a number that may be [undefined]: [undefined] and [0]
    are falsy. *)
Definition truthy (n : option Z) : bool :=
  match n with
  | Some z => negb (z =? 0)%Z
  | None => false
  end.

Definition isWhite (c : ascii) : bool :=
  let n := nat_of_ascii c in
  (n =? 32)%nat || ((9 <=? n)%nat && (n <=? 13)%nat).

Fixpoint skipWhite (s : string) : string :=
  match s with
  | String c rest => if isWhite c then skipWhite rest else s
  | EmptyString => s
  end.

Definition digitVal (c : ascii) : option Z :=
  let n := nat_of_ascii c in
  if (48 <=? n)%nat && (n <=? 57)%nat then Some (Z.of_nat (n - 48)) else None.

(** The longest prefix of decimal digits, as a number; [acc] is [None]
    until a digit has been read. *)
Fixpoint digits (s : string) (acc : option Z) : option Z :=
  match s with
  | String c rest =>
      match digitVal c with
      | Some d =>
          digits rest
            (Some (10 * match acc with Some a => a | None => 0 end + d)%Z)
      | None => acc
      end
  | EmptyString => acc
  end.

(** [parseInt(s, 10)]; [None] is NaN. *)
Definition parseInt10 (s : string) : option Z :=
  match skipWhite s with
  | String "-"%char rest => option_map Z.opp (digits rest None)
  | String "+"%char rest => digits rest None
  | s' => digits s' None
  end.

(** [b - a] on numbers that may be [undefined]: NaN when either is. *)
Definition sub (b a : option Z) : option Z :=
  match b, a with
  | Some y, Some x => Some (y - x)%Z
  | _, _ => None
  end.

(** [Array.prototype.sort(cmp)]: a stable sort; a comparator result of
    NaN counts as 0.  On comparators that are a total preorder every
    stable sort gives this list; on others the order is left to the
    engine. *)
Section Sort.
Context {A : Type} (cmp : A -> A -> option Z).

Definition before (x y : A) : bool :=
  match cmp x y with
  | Some v => (v <=? 0)%Z
  | None => true
  end.

Fixpoint insert (x : A) (l : list A) : list A :=
  match l with
  | [] => [x]
  | y :: ys => if before x y then x :: l else y :: insert x ys
  end.

Fixpoint sort (l : list A) : list A :=
  match l with
  | [] => []
  | x :: xs => insert x (sort xs)
  end.
End Sort.

End JS.

(* ===================================================================== *)
(** * Collaborators                                                       *)
(* ===================================================================== *)

(** Modelled from the spec: the queue collaborator of [./queue], which is
    not among the sources.  The specification gives
    [get() -> ordered sequence of Item (head = currently playing)] and
    [forward() -> void (drops head, advances)]. *)
Module Queue.
Definition get (q : list QueuedSong) : list QueuedSong := q.
Definition forward (q : list QueuedSong) : list QueuedSong := tl q.
End Queue.

(** [voiceConnection.play(input, options)] hands back a fresh dispatcher. *)
Definition vc_play (input : PlayInput) (seekOpt : option Z)
           (typeOpt : option string) : StreamDispatcher :=
  {| d_input := input; d_seek := seekOpt; d_type := typeOpt;
     d_paused := false; d_speakingListeners := 0 |}.

Definition dispatcher_pause (d : StreamDispatcher) : StreamDispatcher :=
  {| d_input := d_input d; d_seek := d_seek d; d_type := d_type d;
     d_paused := true; d_speakingListeners := d_speakingListeners d |}.

Definition dispatcher_resume (d : StreamDispatcher) : StreamDispatcher :=
  {| d_input := d_input d; d_seek := d_seek d; d_type := d_type d;
     d_paused := false; d_speakingListeners := d_speakingListeners d |}.

Definition dispatcher_on_speaking (d : StreamDispatcher) : StreamDispatcher :=
  {| d_input := d_input d; d_seek := d_seek d; d_type := d_type d;
     d_paused := d_paused d;
     d_speakingListeners := S (d_speakingListeners d) |}.

Definition vc_on_disconnect (vc : VoiceConnection) : VoiceConnection :=
  {| vc_joined := vc_joined vc;
     vc_disconnectListeners := S (vc_disconnectListeners vc) |}.

Definition vc_disconnect (vc : VoiceConnection) : VoiceConnection :=
  {| vc_joined := false;
     vc_disconnectListeners := vc_disconnectListeners vc |}.

(* ===================================================================== *)
(** * Format selection: the local functions of [getStream]                *)
(* ===================================================================== *)

Module GetStream.

(** [const filter = format => format.codecs === 'opus' && ...]. *)
Definition filter (format : videoFormat) : bool :=
  String.eqb (codecs format) "opus"
  && String.eqb (container format) "webm"
  && match audioSampleRate format with
     | None => false
     | Some rate =>
         match JS.parseInt10 rate with
         | Some n => (n =? 48000)%Z
         | None => false
         end
     end.

(** The itags accepted for live streams. *)
Definition liveItags : list Z := [128; 127; 120; 96; 95; 94; 93]%Z.

Definition includes (l : list Z) (x : Z) : bool :=
  existsb (fun y => (y =? x)%Z) l.

(** [nextBestFormat].  [formats[0].live] on an empty array reads a
    property of [undefined], which throws.  [itag] is a number at run
    time, so [parseInt] of it is the number itself. *)
Definition nextBestFormat (formats : list videoFormat)
  : Error + option videoFormat :=
  match formats with
  | [] => inl TypeError
  | first :: _ =>
      if live first then
        let sorted :=
          JS.sort (fun a b => JS.sub (audioBitrate b) (audioBitrate a))
                  formats in
        inr (List.find (fun format => includes liveItags (itag format)) sorted)
      else
        let sorted :=
          JS.sort (fun a b => JS.sub (averageBitrate b) (averageBitrate a))
            (List.filter (fun format => JS.truthy (averageBitrate format))
                         formats) in
        inr match List.find (fun format => negb (JS.truthy (bitrate format)))
                            sorted with
            | Some format => Some format
            | None => hd_error sorted
            end
  end.

(** The options given to ffmpeg when the format cannot be played as is. *)
Definition reconnectOptions : list string :=
  ["-reconnect"; "1"; "-reconnect_streamed"; "1";
   "-reconnect_delay_max"; "5"].

End GetStream.

(* ===================================================================== *)
(** * The player class                                                    *)
(* ===================================================================== *)

(** What can happen to an open cache write stream between two turns of
    the event loop.  Only the effect on the files and on the set of open
    streams is recorded: the class registers no handler for a failing
    write or a rejected rename, and what Node does with an unhandled
    ['error'] event or rejection is outside this model. *)
Inductive FsEvent :=
| Chunk (u : string)               (* bytes reach the temp file *)
| WriteError (u : string)          (* the write stream fails: no 'finish' *)
| Finish (u : string)              (* 'finish': the listener renames *)
| FinishRenameFails (u : string).  (* 'finish', but [fs.rename] rejects *)

Definition eventUrl (e : FsEvent) : string :=
  match e with
  | Chunk u | WriteError u | Finish u | FinishRenameFails u => u
  end.

(** Removes the first occurrence: one stream is closed. *)
Fixpoint closeWriter (u : string) (ws : list string) : list string :=
  match ws with
  | [] => []
  | w :: ws' => if String.eqb w u then ws' else w :: closeWriter u ws'
  end.

(** What one run of [waitForCache] did: how it settled, how many times
    the interval callback ran, and the state it left. *)
Record WaitRun := {
  outcome : Res unit;
  firings : nat;
  after : State
}.

Section Player.

(** [hasha(url)]: the digest of the url, from the [hasha] package. *)
Variable hasha : string -> string.

(** [ytdl.getInfo(url)]; [None] when the promise rejects. *)
Variable getInfo : string -> option videoInfo.

Local Open Scope js_scope.

(** ** Cache paths *)

Definition getCachedPath (url : string) (s : State) : string :=
  Path.join (cacheDir s) (hasha url).

Definition getCachedPathTemp (url : string) : string :=
  Path.join "/tmp" (hasha url).

(** [fs.access] resolves exactly when the path exists. *)
Definition isCached (url : string) (s : State) : bool :=
  bool_decide (getCachedPath url s ∈ fs s).

(** ** The cache writer set up by [getStream] *)

(** [createWriteStream(cacheTempPath)] creates the temp file; the
    stream stays open until it finishes or fails.  Node opens the file
    a moment after the call returns; here the file is there at once, so
    the file set just after the call is the one after the open. *)
Definition createWriteStream (url : string) (s : State) : State :=
  set_writers (url :: writers s)
    (set_fs ({[getCachedPathTemp url]} ∪ fs s) s).

(** [fs.rename(old, new)]: fails when [old] does not exist. *)
Definition rename (old new : string) (files : gset string)
  : option (gset string) :=
  if bool_decide (old ∈ files)
  then Some ({[new]} ∪ (files ∖ {[old]}))
  else None.

(** The ['finish'] listener that [getStream] registers on the cache
    write stream of [url]:
    [async () => { await fs.rename(cacheTempPath, cachedPath); }].
    Its body has no [try] and nothing awaits the promise it returns:
    when [fs.rename] rejects, the listener's promise rejects with the
    same error. *)
Definition onFinish (url : string) : M unit :=
  let* cachedPath := get (getCachedPath url) in
  let* files := get fs in
  match rename (getCachedPathTemp url) cachedPath files with
  | Some files' => modify (set_fs files')
  | None => throw RenameError
  end.

(** One event on the write stream opened for [u]; events for a url
    with no open stream do not occur.  [Finish] is the stream closing
    and its listener [onFinish] running, whatever the listener's promise
    becomes; [FinishRenameFails] is a rename that fails for a reason the
    file set does not show (another device, permissions). *)
Definition fsEvent (e : FsEvent) (s : State) : State :=
  if negb (existsb (String.eqb (eventUrl e)) (writers s)) then s
  else
    match e with
    | Chunk _ => s
    | WriteError u => set_writers (closeWriter u (writers s)) s
    | FinishRenameFails u => set_writers (closeWriter u (writers s)) s
    | Finish u =>
        let s' := set_writers (closeWriter u (writers s)) s in
        match rename (getCachedPathTemp u) (getCachedPath u s) (fs s) with
        | Some files => set_fs files s'
        | None => s'
        end
    end.

Definition fsEvents (es : list FsEvent) (s : State) : State :=
  fold_left (fun acc e => fsEvent e acc) es s.

(** ** [waitForCache] *)

(** The interval callback [cachedCheck], once per element of [sched]:
    each element lists the stream events that happened since the
    previous check.  When the list runs out before the promise
    settles, the wait is still pending.  The schedule carries stream
    events only: what else runs while the wait is pending (the position
    interval above all) is not part of it, so a run tells how many
    checks were made and how the wait settled, not what the position is
    when it does. *)
Fixpoint cachedCheck (url : string) (maxRetries : Z)
         (sched : list (list FsEvent)) (nOfChecks : Z) (fired : nat)
         (s : State) : WaitRun :=
  match sched with
  | [] => {| outcome := Pending; firings := fired; after := s |}
  | events :: sched' =>
      let s1 := fsEvents events s in
      if isCached url s1 then
        {| outcome := Ok tt; firings := S fired; after := s1 |}
      else
        let nOfChecks' := (nOfChecks + 1)%Z in
        if (nOfChecks' >? maxRetries)%Z then
          {| outcome := Throw CacheTimeoutError;
             firings := S fired; after := s1 |}
        else cachedCheck url maxRetries sched' nOfChecks' (S fired) s1
  end.

Definition waitForCache_run (url : string) (maxRetries : Z)
           (sched : list (list FsEvent)) (s : State) : WaitRun :=
  if isCached url s then {| outcome := Ok tt; firings := 0; after := s |}
  else cachedCheck url maxRetries sched 0 0 s.

(** Time spent in the wait, in milliseconds of [retryDelay]. *)
Definition elapsed (retryDelay : Z) (r : WaitRun) : Z :=
  (Z.of_nat (firings r) * retryDelay)%Z.

Definition waitForCache (url : string) (maxRetries retryDelay : Z)
           (sched : list (list FsEvent)) : M unit :=
  fun s =>
    let r := waitForCache_run url maxRetries sched s in
    (outcome r, after r).

(** ** Position tracking *)

Definition clearInterval (h : nat) (s : State) : State :=
  set_timers (timers s ∖ {[h]}) (nextTimer s) s.

(** [setInterval] arms a new timer and returns its handle. *)
Definition setInterval (s : State) : nat * State :=
  (nextTimer s,
   set_timers ({[nextTimer s]} ∪ timers s) (S (nextTimer s)) s).

Definition startTrackingPosition (initalPosition : option Z) (s : State)
  : State :=
  let s1 :=
    match initalPosition with
    | Some p => if JS.truthy initalPosition
                then set_positionInSeconds p s else s
    | None => s
    end in
  let s2 :=
    match playPositionInterval s1 with
    | Some h => clearInterval h s1
    | None => s1
    end in
  let (h, s3) := setInterval s2 in
  set_playPositionInterval (Some h) s3.

Definition stopTrackingPosition (s : State) : State :=
  match playPositionInterval s with
  | Some h => clearInterval h s
  | None => s
  end.

(** The callback of the position interval with handle [h]. *)
Definition positionTick (h : nat) (s : State) : State :=
  if bool_decide (h ∈ timers s)
  then set_positionInSeconds (positionInSeconds s + 1)%Z s
  else s.

(** The tracker counts while the handle it holds is armed. *)
Definition tracking (s : State) : bool :=
  match playPositionInterval s with
  | Some h => bool_decide (h ∈ timers s)
  | None => false
  end.

Definition getPosition (s : State) : Z := positionInSeconds s.

Definition getCurrentSong (s : State) : option QueuedSong :=
  match Queue.get (queue s) with
  | [] => None
  | song :: _ => Some song
  end.

(** ** [getStream] *)

Definition getStream (url : string) : M PlayInput :=
  fun s =>
    let cachedPath := getCachedPath url s in
    if isCached url s then (Ok (FromPath cachedPath), s)
    else
      match getInfo url with
      | None => (Throw RemoteError, s)
      | Some info =>
          let chosen : Error + option (videoFormat * bool) :=
            match List.find GetStream.filter (formats info) with
            | Some format => inr (Some (format, true))
            | None =>
                match GetStream.nextBestFormat (formats info) with
                | inl e => inl e
                | inr (Some format) => inr (Some (format, false))
                | inr None => inr None
                end
            end in
          match chosen with
          | inl e => (Throw e, s)
          | inr None => (Throw NoSuitableFormatError, s)
          | inr (Some (format, canDirectPlay)) =>
              let youtubeStream :=
                if canDirectPlay then downloadFromInfo format
                else ffmpegOpus (f_url format) GetStream.reconnectOptions in
              (* Don't cache livestreams *)
              let s' :=
                if negb (isLiveContent info)
                then createWriteStream url s else s in
              (Ok (FromStream (capacitorReadStream youtubeStream)), s')
          end
      end.

(** ** Listeners *)

Definition attachListeners (s : State) : State :=
  match voiceConnection s with
  | None => s
  | Some vc =>
      let s1 := set_voiceConnection (Some (vc_on_disconnect vc)) s in
      match dispatcher s1 with
      | None => s1
      | Some d => set_dispatcher (Some (dispatcher_on_speaking d)) s1
      end
  end.

(** ** [connect], [seek], [play], [pause], [disconnect] *)

(** [channel.join()] resolves to a joined connection. *)
Definition connect : M unit :=
  modify (set_voiceConnection
            (Some {| vc_joined := true; vc_disconnectListeners := 0 |})).

Definition seek (sched : list (list FsEvent)) (positionSeconds : Z)
  : M unit :=
  let* conn := get voiceConnection in
  match conn with
  | None => throw NotConnectedError
  | Some _ =>
      let* currentSong := get getCurrentSong in
      match currentSong with
      | None => throw NoCurrentSongError
      | Some song =>
          exec waitForCache (url song) 50 500 sched in
          exec modify (fun s =>
                 set_dispatcher
                   (Some (vc_play (FromPath (getCachedPath (url song) s))
                                  (Some positionSeconds) None)) s) in
          exec modify attachListeners in
          exec modify (startTrackingPosition (Some positionSeconds)) in
          modify (set_status PLAYING)
      end
  end.

Definition forwardSeek (sched : list (list FsEvent)) (positionSeconds : Z)
  : M unit :=
  fun s => seek sched (positionInSeconds s + positionSeconds)%Z s.

Definition play (sched : list (list FsEvent)) : M unit :=
  let* conn := get voiceConnection in
  match conn with
  | None => throw NotConnectedError
  | Some _ =>
      let* st := get status in
      match st with
      | PAUSED =>
          (* Resume from paused state *)
          let* disp := get dispatcher in
          match disp with
          | Some d =>
              exec modify (set_dispatcher (Some (dispatcher_resume d))) in
              modify (set_status PLAYING)
          | None =>
              let* pos := get getPosition in
              seek sched pos
          end
      | _ =>
          let* currentSong := get getCurrentSong in
          match currentSong with
          | None => throw EmptyQueueError
          | Some song =>
              let* cached := get (isCached (url song)) in
              exec (if cached then
                      modify (fun s =>
                        set_dispatcher
                          (Some (vc_play
                                   (FromPath (getCachedPath (url song) s))
                                   None None)) s)
                    else
                      let* stream := getStream (url song) in
                      modify (set_dispatcher
                                (Some (vc_play stream None
                                         (Some "webm/opus"))))) in
              exec modify attachListeners in
              exec modify (set_status PLAYING) in
              modify (startTrackingPosition None)
          end
      end
  end.

Definition pause : M unit :=
  let* st := get status in
  match st with
  | PLAYING =>
      exec modify (set_status PAUSED) in
      exec modify (fun s =>
             match dispatcher s with
             | Some d => set_dispatcher (Some (dispatcher_pause d)) s
             | None => s
             end) in
      modify stopTrackingPosition
  | _ => throw NotPlayingError
  end.

Definition disconnect : M unit :=
  let* conn := get voiceConnection in
  match conn with
  | Some _ =>
      let* st := get status in
      exec (match st with PLAYING => pause | _ => ret tt end) in
      modify (fun s =>
        set_voiceConnection (option_map vc_disconnect (voiceConnection s)) s)
  | None => ret tt
  end.

(** ** The listeners installed by [attachListeners] *)

(** [voiceConnection.on('disconnect', ...)]. *)
Definition onDisconnect : M unit :=
  let* st := get status in
  exec (match st with PLAYING => pause | _ => ret tt end) in
  modify (set_dispatcher None).

(** [dispatcher.on('speaking', async isSpeaking => ...)]. *)
Definition onSpeaking (sched : list (list FsEvent)) (isSpeaking : bool)
  : M unit :=
  let* st := get status in
  match isSpeaking, st with
  | false, PLAYING =>
      (* Automatically advance queued song at end *)
      let* songs := get (fun s => Queue.get (queue s)) in
      if (0 <? length songs)%nat then
        exec modify (fun s => set_queue (Queue.forward (queue s)) s) in
        play sched
      else ret tt
  | _, _ => ret tt
  end.

End Player.

(* ===================================================================== *)
(** * Vocabulary of the statements                                        *)
(* ===================================================================== *)

(** The sample rate of a format as a number. *)
Definition sampleRate (format : videoFormat) : option Z :=
  match audioSampleRate format with
  | Some rate => JS.parseInt10 rate
  | None => None
  end.

(** A format the voice transport takes as it is: opus in webm at 48 kHz. *)
Definition isNative (format : videoFormat) : Prop :=
  codecs format = "opus"
  /\ container format = "webm"
  /\ sampleRate format = Some 48000%Z.

(** Whether a stream passes through the ffmpeg stage. *)
Fixpoint transcoded (r : Readable) : bool :=
  match r with
  | downloadFromInfo _ => false
  | ffmpegOpus _ _ => true
  | capacitorReadStream piped => transcoded piped
  end.

(** Bitrates as numbers, 0 when missing. *)
Definition averageOf (format : videoFormat) : Z :=
  match averageBitrate format with Some z => z | None => 0%Z end.

Definition audioOf (format : videoFormat) : Z :=
  match audioBitrate format with Some z => z | None => 0%Z end.

(** The order of a list sorted by [key], larger first. *)
Definition descending {A : Type} (key : A -> Z) (a b : A) : Prop :=
  (key b <= key a)%Z.

(** The state [pause] leaves when it succeeds. *)
Definition paused_from (s : State) : State :=
  stopTrackingPosition
    (match dispatcher s with
     | Some d => set_dispatcher (Some (dispatcher_pause d)) (set_status PAUSED s)
     | None => set_status PAUSED s
     end).

(** The url stays uncached along the whole schedule of a wait: at the
    first check and after every batch of stream events. *)
Definition neverCached (hasha : string -> string) (u : string)
           (sched : list (list FsEvent)) (s : State) : Prop :=
  forall k : nat,
    isCached hasha u (fsEvents hasha (concat (firstn k sched)) s) = false.

(** Everything this class does to the file system: [getStream] opens a
    cache write stream, and an open stream has its events. *)
Inductive CacheStep :=
| OpenWriter (u : string)
| StreamEvent (e : FsEvent).

Definition stepUrl (c : CacheStep) : string :=
  match c with
  | OpenWriter u => u
  | StreamEvent e => eventUrl e
  end.

Definition cacheStep (hasha : string -> string) (c : CacheStep) (s : State)
  : State :=
  match c with
  | OpenWriter u => createWriteStream hasha u s
  | StreamEvent e => fsEvent hasha e s
  end.

Definition cacheSteps (hasha : string -> string) (cs : list CacheStep)
           (s : State) : State :=
  fold_left (fun acc c => cacheStep hasha c acc) cs s.

(** The step is the end of a write whose rename targets [final]. *)
Definition publishesTo (hasha : string -> string) (final : string)
           (s : State) (c : CacheStep) : Prop :=
  match c with
  | StreamEvent (Finish v) => getCachedPath hasha v s = final
  | _ => False
  end.

(** The temp path of the url the step is about. *)
Definition scratchOf (hasha : string -> string) (c : CacheStep) : string :=
  getCachedPathTemp hasha (stepUrl c).

(** Everything of the state except the file system and the open streams. *)
Definition session (s : State)
  : STATUS * string * option VoiceConnection * option StreamDispatcher
    * option nat * Z * list QueuedSong * gset nat * nat :=
  (status s, cacheDir s, voiceConnection s, dispatcher s,
   playPositionInterval s, positionInSeconds s, queue s, timers s,
   nextTimer s).

(** The state a successful [seek] builds from the state [s1] the wait
    left. *)
Definition sought (hasha : string -> string) (song : QueuedSong) (p : Z) (s1 : State) : State :=
  set_status PLAYING
    (startTrackingPosition (Some p)
       (attachListeners
          (set_dispatcher
             (Some (vc_play (FromPath (getCachedPath hasha (url song) s1))
                            (Some p) None)) s1))).

(** The state a successful fresh [play] builds from the state [s1] the
    acquisition left. *)
Definition started (input : PlayInput) (typeOpt : option string)
           (s1 : State) : State :=
  startTrackingPosition None
    (set_status PLAYING
       (attachListeners
          (set_dispatcher (Some (vc_play input None typeOpt)) s1))).

(** Everything that can happen to a player: a call of one of its public
    methods, one of its two listeners being run, a firing of a position
    interval, an event on a cache write stream. *)
Inductive Op :=
| OpConnect
| OpDisconnect
| OpPlay (sched : list (list FsEvent))
| OpSeek (sched : list (list FsEvent)) (positionSeconds : Z)
| OpForwardSeek (sched : list (list FsEvent)) (positionSeconds : Z)
| OpPause
| OpSpeaking (sched : list (list FsEvent)) (isSpeaking : bool)
| OpConnectionLost
| OpTick (h : nat)
| OpStream (e : FsEvent).

(** The state an operation leaves, whether it returned or threw. *)
Definition step (hasha : string -> string)
           (getInfo : string -> option videoInfo) (o : Op) (s : State)
  : State :=
  match o with
  | OpConnect => snd (connect s)
  | OpDisconnect => snd (disconnect s)
  | OpPlay sched => snd (play hasha getInfo sched s)
  | OpSeek sched p => snd (seek hasha sched p s)
  | OpForwardSeek sched d => snd (forwardSeek hasha sched d s)
  | OpPause => snd (pause s)
  | OpSpeaking sched b => snd (onSpeaking hasha getInfo sched b s)
  | OpConnectionLost => snd (onDisconnect s)
  | OpTick h => positionTick h s
  | OpStream e => fsEvent hasha e s
  end.

Definition steps (hasha : string -> string)
           (getInfo : string -> option videoInfo) (ops : list Op) (s : State)
  : State :=
  fold_left (fun acc o => step hasha getInfo o acc) ops s.

(** The status together with Node's timers and the handle the tracker
    holds: what the position tracking depends on. *)
Definition trackerView (s : State) : STATUS * gset nat * option nat * nat :=
  (status s, timers s, playPositionInterval s, nextTimer s).

(** The four things an operation can do to the status and the timers. *)
Inductive TrackerChange (s s' : State) : Prop :=
| Untouched : trackerView s' = trackerView s -> TrackerChange s s'
| Resumed :
    status s = PAUSED ->
    trackerView s' = trackerView (set_status PLAYING s) ->
    TrackerChange s s'
| Halted :
    status s = PLAYING ->
    trackerView s'
    = trackerView (stopTrackingPosition (set_status PAUSED s)) ->
    TrackerChange s s'
| Restarted (i : option Z) :
    trackerView s'
    = trackerView (set_status PLAYING (startTrackingPosition i s)) ->
    TrackerChange s s'.

(** Every armed interval is the one the tracker holds. *)
Definition singleTimer (s : State) : Prop :=
  forall h : nat, h ∈ timers s -> playPositionInterval s = Some h.

(** One second passes: every armed interval fires once. *)
Definition second (s : State) : State :=
  fold_left (fun acc h => positionTick h acc) (elements (timers s)) s.

(* ===================================================================== *)
(** * Concrete worlds for evaluation                                      *)
(* ===================================================================== *)

Module Sample.

Definition hexDigit (n : nat) : ascii :=
  ascii_of_nat (if (n <? 10)%nat then 48 + n else 87 + n).

(** A stand-in for the digest: the bytes of the url in hexadecimal.  It
    is injective and, like a real digest, has no ['/'] or ['.']. *)
Fixpoint hasha (u : string) : string :=
  match u with
  | EmptyString => EmptyString
  | String c rest =>
      let n := nat_of_ascii c in
      String (hexDigit (n / 16)) (String (hexDigit (n mod 16)) (hasha rest))
  end.

Definition songA : QueuedSong := {| url := "a"; title := "A" |}.
Definition songB : QueuedSong := {| url := "b"; title := "B" |}.

Definition opusWebm : videoFormat :=
  {| itag := 251; f_url := "https://r/251"; codecs := "opus";
     container := "webm"; audioSampleRate := Some "48000";
     audioBitrate := Some 160%Z; averageBitrate := Some 130000%Z;
     bitrate := Some 140000%Z; live := false |}.

Definition aacMp4 : videoFormat :=
  {| itag := 140; f_url := "https://r/140"; codecs := "mp4a.40.2";
     container := "mp4"; audioSampleRate := Some "44100";
     audioBitrate := Some 128%Z; averageBitrate := Some 129000%Z;
     bitrate := Some 130000%Z; live := false |}.

(** Every url resolves to a finite video offering both formats. *)
Definition getInfo (u : string) : option videoInfo :=
  Some {| formats := [aacMp4; opusWebm]; isLiveContent := false |}.

(** A url whose format list is empty. *)
Definition getInfoEmpty (u : string) : option videoInfo :=
  Some {| formats := []; isLiveContent := false |}.

Definition connected (s : State) : State := snd (connect s).

(** One second passes: the interval held by the tracker fires. *)
Definition tick (s : State) : State :=
  match playPositionInterval s with
  | Some h => positionTick h s
  | None => s
  end.

(** A new player over the queue [A, B], before and after joining. *)
Definition fresh : State := newPlayer [songA; songB] "/data/cache" ∅.
Definition joined : State := connected fresh.

(** [play()] on it, then three seconds of A. *)
Definition playingA : State := snd (play hasha getInfo [] joined).
Definition threeSecondsIn : State := tick (tick (tick playingA)).

(** A player whose queue holds A only, with A playing. *)
Definition lastTrack : State :=
  snd (play hasha getInfo [] (connected (newPlayer [songA] "/data/cache" ∅))).

(** A is in the cache, has been playing for three seconds. *)
Definition cachedThreeSecondsIn : State :=
  tick (tick (tick
    (snd (play hasha getInfo []
            (connected (newPlayer [songA] "/data/cache"
                          {[Path.join "/data/cache" (hasha "a")]})))))).

(** Paused, never connected, nothing queued. *)
Definition pausedUnconnected : State :=
  set_status PAUSED (newPlayer [] "/data/cache" ∅).

(** A player whose cache directory is /tmp. *)
Definition joinedTmp : State := connected (newPlayer [songA] "/tmp" ∅).

(** Interval firings during which nothing happens to the files. *)
Definition quiet (n : nat) : list (list FsEvent) := repeat [] n.

(** B is in the cache, A is not. *)
Definition joinedCachedB : State :=
  connected (newPlayer [songA; songB] "/data/cache"
               {[Path.join "/data/cache" (hasha "b")]}).

(** A live stream on an itag of the whitelist, and a second rendition. *)
Definition liveHls : videoFormat :=
  {| itag := 95; f_url := "https://r/95"; codecs := "mp4a.40.2, avc1.64001F";
     container := "ts"; audioSampleRate := None;
     audioBitrate := Some 256%Z; averageBitrate := None;
     bitrate := Some 2000000%Z; live := true |}.

Definition liveLow : videoFormat :=
  {| itag := 93; f_url := "https://r/93"; codecs := "mp4a.40.2, avc1.4D401E";
     container := "ts"; audioSampleRate := None;
     audioBitrate := Some 128%Z; averageBitrate := None;
     bitrate := Some 800000%Z; live := true |}.

(** A finite rendition that reports an average bitrate but no bitrate. *)
Definition vorbisWebm : videoFormat :=
  {| itag := 171; f_url := "https://r/171"; codecs := "vorbis";
     container := "webm"; audioSampleRate := Some "44100";
     audioBitrate := Some 128%Z; averageBitrate := Some 110000%Z;
     bitrate := None; live := false |}.

(** Every url resolves to a finite video with no native format. *)
Definition getInfoLegacy (u : string) : option videoInfo :=
  Some {| formats := [aacMp4; vorbisWebm]; isLiveContent := false |}.

(** Every url resolves to a live stream. *)
Definition getInfoLive (u : string) : option videoInfo :=
  Some {| formats := [liveLow; liveHls]; isLiveContent := true |}.

(** The remote source cannot be reached. *)
Definition getInfoDown (u : string) : option videoInfo := None.

(** A is in the cache, connected, nothing played yet. *)
Definition joinedCachedA : State :=
  connected (newPlayer [songA] "/data/cache"
               {[Path.join "/data/cache" (hasha "a")]}).

(** Connected, nothing queued. *)
Definition joinedEmpty : State := connected (newPlayer [] "/data/cache" ∅).

(** The dispatcher [play()] creates for the uncached A. *)
Definition dispatcherA : StreamDispatcher :=
  dispatcher_on_speaking
    (vc_play (FromStream (capacitorReadStream (downloadFromInfo opusWebm)))
             None (Some "webm/opus")).

End Sample.

(* ===================================================================== *)
(** * Properties                                                          *)
(* ===================================================================== *)

(** Unfolds the monad so that a method becomes a plain function of the
    state. *)
(** ** The helpers on small inputs *)

Example join_plain : Path.join "/data/cache" "ab12" = "/data/cache/ab12".
Proof. reflexivity. Qed.

Example join_dots : Path.join "/tmp/x/../" "./ab12" = "/tmp/ab12".
Proof. reflexivity. Qed.

Example join_relative : Path.join "../a//b/" "c/.." = "../a/b".
Proof. reflexivity. Qed.

Example parseInt_rate : JS.parseInt10 "48000" = Some 48000%Z.
Proof. reflexivity. Qed.

Example parseInt_nan : JS.parseInt10 "hz" = None.
Proof. reflexivity. Qed.

Example sort_desc :
  JS.sort (fun a b => JS.sub (Some b) (Some a)) [3; 9; 1; 9]%Z = [9; 9; 3; 1]%Z.
Proof. reflexivity. Qed.

Ltac js_unfold :=
  unfold bind, get, modify, throw, ret in *.

Section Guards.

Variable hasha : string -> string.
Variable getInfo : string -> option videoInfo.

(** ** Connection guard of [play] and [seek] *)

Lemma play_not_connected (sched : list (list FsEvent)) (s : State) :
  voiceConnection s = None ->
  play hasha getInfo sched s = (Throw NotConnectedError, s).
Proof.
  intros Hnone. unfold play. js_unfold. now rewrite Hnone.
Qed.

Lemma seek_not_connected (sched : list (list FsEvent)) (p : Z) (s : State) :
  voiceConnection s = None ->
  seek hasha sched p s = (Throw NotConnectedError, s).
Proof.
  intros Hnone. unfold seek. js_unfold. now rewrite Hnone.
Qed.

(** C10.  With no voice connection attached, [play] and [seek] reject
    with the not-connected error and hand back the very state they were
    given, whatever the status (so also when resuming from [PAUSED]),
    the queue (so also when it is empty), the schedule of the world and
    the requested offset: the connection test comes before every other
    test and before every effect. *)
Theorem not_connected_first (sched : list (list FsEvent)) (s : State) :
  voiceConnection s = None ->
  play hasha getInfo sched s = (Throw NotConnectedError, s)
  /\ (forall p : Z, seek hasha sched p s = (Throw NotConnectedError, s))
  /\ fst (play hasha getInfo sched s) <> Throw EmptyQueueError.
Proof.
  intros Hnone. split; [|split].
  - now apply play_not_connected.
  - intros p. now apply seek_not_connected.
  - rewrite play_not_connected by assumption. simpl. discriminate.
Qed.

(** ** [pause] *)

Lemma stopTrackingPosition_not_tracking (s : State) :
  tracking (stopTrackingPosition s) = false.
Proof.
  unfold tracking, stopTrackingPosition.
  destruct (playPositionInterval s) as [h|] eqn:Hh; simpl.
  - rewrite Hh. apply bool_decide_eq_false.
    intros Hin. apply elem_of_difference in Hin as [_ Hn].
    apply Hn. now apply elem_of_singleton.
  - now rewrite Hh.
Qed.

Lemma positionTick_stopped (h : nat) (s : State) :
  playPositionInterval s = Some h ->
  tracking s = false ->
  positionTick h s = s.
Proof.
  unfold tracking, positionTick. intros -> Hoff. now rewrite Hoff.
Qed.

(** C9.  [pause] succeeds exactly from [PLAYING].  From any other
    status it throws the not-playing error and the state is the one it
    was given.  From [PLAYING] it returns, the status is [PAUSED]; the
    dispatcher, if one is attached, is the same dispatcher (input,
    offset, type, listeners) now paused, and none appears if none was
    attached; the interval whose handle the tracker holds has left the
    armed timers and no other timer was touched, so the tracker no
    longer counts, a late tick of its handle leaves the state alone,
    and where the tracker's interval was the only one armed none is
    armed any more and a second of time leaves the position alone; the
    position, the connection, the queue and the files are kept. *)
Theorem pause_only_when_playing (s : State) :
  (status s <> PLAYING -> pause s = (Throw NotPlayingError, s))
  /\ (status s = PLAYING ->
      exists s' : State,
        pause s = (Ok tt, s')
        /\ status s' = PAUSED
        /\ dispatcher s' = option_map dispatcher_pause (dispatcher s)
        /\ match dispatcher s with
           | Some d =>
               exists d' : StreamDispatcher,
                 dispatcher s' = Some d'
                 /\ d_paused d' = true
                 /\ d_input d' = d_input d
                 /\ d_seek d' = d_seek d
                 /\ d_type d' = d_type d
                 /\ d_speakingListeners d' = d_speakingListeners d
           | None => dispatcher s' = None
           end
        /\ playPositionInterval s' = playPositionInterval s
        /\ match playPositionInterval s with
           | Some h => timers s' = timers s ∖ {[h]} /\ h ∉ timers s'
           | None => timers s' = timers s
           end
        /\ tracking s' = false
        /\ (forall h, playPositionInterval s' = Some h ->
                      positionTick h s' = s')
        /\ (singleTimer s ->
            elements (timers s') = [] /\ second s' = s')
        /\ getPosition s' = getPosition s
        /\ voiceConnection s' = voiceConnection s
        /\ queue s' = queue s
        /\ fs s' = fs s
        /\ writers s' = writers s).
Proof.
  split.
  - intros Hst. unfold pause. js_unfold.
    destruct (status s); [congruence | reflexivity | reflexivity].
  - intros Hst. exists (paused_from s).
    assert (Hoff : tracking (paused_from s) = false)
      by apply stopTrackingPosition_not_tracking.
    assert (Hint : playPositionInterval (paused_from s)
                   = playPositionInterval s).
    { unfold paused_from, stopTrackingPosition.
      destruct (dispatcher s) eqn:Hd; simpl;
        destruct (playPositionInterval s) eqn:Hp; simpl;
        now rewrite ?Hp. }
    assert (Htimers : match playPositionInterval s with
                      | Some h => timers (paused_from s) = timers s ∖ {[h]}
                      | None => timers (paused_from s) = timers s
                      end).
    { unfold paused_from, stopTrackingPosition.
      destruct (dispatcher s) eqn:Hd; simpl;
        destruct (playPositionInterval s) eqn:Hp; simpl;
        now rewrite ?Hp. }
    repeat match goal with |- _ /\ _ => split end.
    + unfold pause. js_unfold. rewrite Hst. reflexivity.
    + unfold paused_from, stopTrackingPosition.
      destruct (dispatcher s) eqn:Hd; simpl;
        destruct (playPositionInterval s); simpl; now rewrite ?Hd.
    + unfold paused_from, stopTrackingPosition.
      destruct (dispatcher s) eqn:Hd; simpl;
        destruct (playPositionInterval s); simpl; now rewrite ?Hd.
    + unfold paused_from, stopTrackingPosition.
      destruct (dispatcher s) as [d|] eqn:Hd; simpl.
      * exists (dispatcher_pause d).
        destruct (playPositionInterval s); simpl; repeat split.
      * destruct (playPositionInterval s); simpl; now rewrite ?Hd.
    + exact Hint.
    + destruct (playPositionInterval s) as [h|]; [|exact Htimers].
      split; [exact Htimers|]. rewrite Htimers.
      intros Hin. apply elem_of_difference in Hin as [_ Hn].
      apply Hn. now apply elem_of_singleton.
    + exact Hoff.
    + intros h Hh. now apply positionTick_stopped.
    + intros Hone.
      assert (Hempty : timers (paused_from s) = ∅).
      { destruct (playPositionInterval s) as [h|] eqn:Hh.
        - rewrite Htimers. apply set_eq. intros x. split.
          + intros Hin. apply elem_of_difference in Hin as [Hx Hn].
            exfalso. apply Hn. apply elem_of_singleton.
            specialize (Hone x Hx). congruence.
          + intros Hin. now apply elem_of_empty in Hin.
        - rewrite Htimers. apply set_eq. intros x. split.
          + intros Hin. specialize (Hone x Hin). congruence.
          + intros Hin. now apply elem_of_empty in Hin. }
      assert (Hnone : elements (timers (paused_from s)) = []).
      { rewrite Hempty. apply elements_empty. }
      split; [exact Hnone|].
      unfold second. rewrite Hnone. reflexivity.
    + unfold paused_from, stopTrackingPosition, getPosition.
      destruct (dispatcher s) eqn:Hd; simpl;
        destruct (playPositionInterval s); simpl; now rewrite ?Hd.
    + unfold paused_from, stopTrackingPosition.
      destruct (dispatcher s) eqn:Hd; simpl;
        destruct (playPositionInterval s); simpl; now rewrite ?Hd.
    + unfold paused_from, stopTrackingPosition.
      destruct (dispatcher s) eqn:Hd; simpl;
        destruct (playPositionInterval s); simpl; now rewrite ?Hd.
    + unfold paused_from, stopTrackingPosition.
      destruct (dispatcher s) eqn:Hd; simpl;
        destruct (playPositionInterval s); simpl; now rewrite ?Hd.
    + unfold paused_from, stopTrackingPosition.
      destruct (dispatcher s) eqn:Hd; simpl;
        destruct (playPositionInterval s); simpl; now rewrite ?Hd.
Qed.

End Guards.

(** ** Format selection and acquisition *)

Lemma find_first {A : Type} (p : A -> bool) (l : list A) (x : A) :
  List.find p l = Some x ->
  exists pre post,
    l = (pre ++ x :: post)%list /\ p x = true /\ (forall y, In y pre -> p y = false).
Proof.
  induction l as [|a l IH]; simpl; [discriminate|].
  destruct (p a) eqn:Hpa.
  - intros [= <-]. exists [], l. repeat split; [assumption | intros y []].
  - intros Hfind. destruct (IH Hfind) as (pre & post & -> & Hx & Hpre).
    exists (a :: pre), post. repeat split; [assumption|].
    intros y [<- | Hy]; [assumption | now apply Hpre].
Qed.

Lemma find_finds {A : Type} (p : A -> bool) (l : list A) :
  (exists x, In x l /\ p x = true) -> exists y, List.find p l = Some y.
Proof.
  intros (x & Hin & Hpx). destruct (List.find p l) as [y|] eqn:Hfind.
  - now exists y.
  - pose proof (find_none p l Hfind x Hin) as Hno. congruence.
Qed.

Lemma filter_nothing {A : Type} (p : A -> bool) (l : list A) :
  (forall x, In x l -> p x = false) -> List.filter p l = [].
Proof.
  induction l as [|a l IH]; intros Hall; [reflexivity|].
  simpl. rewrite (Hall a (or_introl eq_refl)).
  apply IH. intros x Hin. apply Hall. now right.
Qed.

Lemma filter_isNative (format : videoFormat) :
  GetStream.filter format = true <-> isNative format.
Proof.
  unfold GetStream.filter, isNative, sampleRate.
  rewrite !andb_true_iff, !String.eqb_eq.
  destruct (audioSampleRate format) as [rate|].
  - destruct (JS.parseInt10 rate) as [n|].
    + rewrite Z.eqb_eq. split.
      * intros [[Hc Hk] Hn]. now subst n.
      * intros (Hc & Hk & [= Hn]). now repeat split.
    + split; [intros [_ Hn]; discriminate | intros (_ & _ & Hn); discriminate].
  - split; [intros [_ Hn]; discriminate | intros (_ & _ & Hn); discriminate].
Qed.

Section Acquisition.

Variable hasha : string -> string.
Variable getInfo : string -> option videoInfo.

(** When the direct-play filter finds a format, [getStream] hands back
    the download of that format behind the capacitor. *)
Lemma getStream_direct (u : string) (s : State) (info : videoInfo)
      (format : videoFormat) :
  isCached hasha u s = false ->
  getInfo u = Some info ->
  List.find GetStream.filter (formats info) = Some format ->
  fst (getStream hasha getInfo u s)
  = Ok (FromStream (capacitorReadStream (downloadFromInfo format))).
Proof.
  intros Hmiss Hinfo Hfind. unfold getStream.
  now rewrite Hmiss, Hinfo, Hfind.
Qed.

(** C7.  For a url that is not cached and whose formats include a native
    one (opus, webm, 48000 Hz), [getStream] returns a stream, and that
    stream is the plain download of the first native format of the list,
    read through the capacitor: no format before it in the list is
    native, and the stream does not pass through ffmpeg. *)
Theorem native_format_direct_play (u : string) (s : State) (info : videoInfo) :
  isCached hasha u s = false ->
  getInfo u = Some info ->
  (exists format, In format (formats info) /\ isNative format) ->
  exists pre format post r,
    formats info = (pre ++ format :: post)%list
    /\ isNative format
    /\ (forall other, In other pre -> ~ isNative other)
    /\ fst (getStream hasha getInfo u s) = Ok (FromStream r)
    /\ r = capacitorReadStream (downloadFromInfo format)
    /\ transcoded r = false.
Proof.
  intros Hmiss Hinfo (f0 & Hin & Hnat).
  destruct (find_finds GetStream.filter (formats info)) as [format Hfind].
  { exists f0. split; [assumption | now apply filter_isNative]. }
  destruct (find_first _ _ _ Hfind) as (pre & post & Hsplit & Hok & Hpre).
  exists pre, format, post, (capacitorReadStream (downloadFromInfo format)).
  split; [assumption|]. split; [now apply filter_isNative|].
  split.
  - intros other Hother Hn. apply filter_isNative in Hn.
    rewrite (Hpre other Hother) in Hn. discriminate.
  - split; [now apply getStream_direct with (info := info) | now split].
Qed.

(** Without a native format, [getStream] follows [nextBestFormat]: its
    choice is fed to ffmpeg, and when it has none the call rejects with
    the no-suitable-format error. *)
Lemma getStream_fallback (u : string) (s : State) (info : videoInfo) :
  isCached hasha u s = false ->
  getInfo u = Some info ->
  List.find GetStream.filter (formats info) = None ->
  fst (getStream hasha getInfo u s)
  = match GetStream.nextBestFormat (formats info) with
    | inl e => Throw e
    | inr None => Throw NoSuitableFormatError
    | inr (Some format) =>
        Ok (FromStream (capacitorReadStream
                          (ffmpegOpus (f_url format) GetStream.reconnectOptions)))
    end.
Proof.
  intros Hmiss Hinfo Hfind. unfold getStream.
  rewrite Hmiss, Hinfo, Hfind.
  destruct (GetStream.nextBestFormat (formats info)) as [e | [format|]];
    reflexivity.
Qed.

(** On a non-empty list of a finite source in which no format reports an
    average bitrate, [nextBestFormat] has no choice. *)
Lemma nextBestFormat_no_average (first : videoFormat) (rest : list videoFormat) :
  live first = false ->
  (forall format, In format (first :: rest) ->
                  JS.truthy (averageBitrate format) = false) ->
  GetStream.nextBestFormat (first :: rest) = inr None.
Proof.
  intros Hlive Hnone. unfold GetStream.nextBestFormat. rewrite Hlive.
  rewrite (filter_nothing _ _ Hnone). reflexivity.
Qed.

End Acquisition.

(** ** The sort of [nextBestFormat] *)

Section SortFacts.

Context {A : Type} (cmp : A -> A -> option Z).

(** On the elements of [dom] the comparator orders by [key], larger
    first. *)
Variable key : A -> Z.
Variable dom : A -> Prop.
Hypothesis before_key :
  forall a b, dom a -> dom b -> JS.before cmp a b = (key b <=? key a)%Z.

Lemma insert_In (x y : A) (l : list A) :
  In y (JS.insert cmp x l) <-> y = x \/ In y l.
Proof.
  induction l as [|z l IH]; simpl.
  - split; [intros [<- | []]; now left | intros [-> | []]; now left].
  - destruct (JS.before cmp x z); simpl.
    + split; [intros [<- | H]; [now left | now right]
             | intros [-> | H]; [now left | now right]].
    + rewrite IH. split.
      * intros [<- | [-> | H]]; [right; now left | now left | right; now right].
      * intros [-> | [<- | H]]; [right; now left | now left | right; now right].
Qed.

Lemma sort_In (y : A) (l : list A) :
  In y (JS.sort cmp l) <-> In y l.
Proof.
  induction l as [|x l IH]; simpl; [reflexivity|].
  rewrite insert_In, IH. split; intros [H | H]; auto.
Qed.

Lemma insert_sorted (x : A) (l : list A) :
  dom x -> Forall dom l ->
  StronglySorted (descending key) l ->
  StronglySorted (descending key) (JS.insert cmp x l).
Proof.
  intros Hx Hdom Hsorted.
  induction Hsorted as [|z l Hl IH Hz]; simpl.
  - constructor; constructor.
  - inversion Hdom as [|z' l' Hdz Hdl]; subst.
    rewrite (before_key x z Hx Hdz).
    destruct (Z.leb_spec (key z) (key x)) as [Hle | Hgt].
    + constructor; [now constructor|].
      constructor; [exact Hle|].
      apply List.Forall_forall. intros w Hw.
      rewrite List.Forall_forall in Hz. specialize (Hz w Hw).
      unfold descending in *. lia.
    + constructor; [now apply IH|].
      apply List.Forall_forall. intros w Hw. apply (proj1 (insert_In x w l)) in Hw.
      destruct Hw as [-> | Hw].
      * unfold descending. lia.
      * rewrite List.Forall_forall in Hz. now apply Hz.
Qed.

Lemma sort_sorted (l : list A) :
  Forall dom l -> StronglySorted (descending key) (JS.sort cmp l).
Proof.
  induction l as [|x l IH]; intros Hdom; simpl; [constructor|].
  inversion Hdom as [|x' l' Hx Hl]; subst.
  apply insert_sorted; [assumption | | now apply IH].
  apply List.Forall_forall. intros w Hw. apply (proj1 (sort_In w l)) in Hw.
  rewrite List.Forall_forall in Hl. now apply Hl.
Qed.

(** In a list sorted larger-first, the first element that satisfies [p]
    has the largest key among those that satisfy [p]. *)
Lemma find_sorted_largest (p : A -> bool) (l : list A) (x : A) :
  StronglySorted (descending key) l ->
  List.find p l = Some x ->
  forall y, In y l -> p y = true -> (key y <= key x)%Z.
Proof.
  intros Hsorted. induction Hsorted as [|z l Hl IH Hz]; simpl;
    [discriminate|].
  destruct (p z) eqn:Hpz.
  - intros [= <-] y [<- | Hy] _; [lia|].
    rewrite List.Forall_forall in Hz. now apply Hz.
  - intros Hfind y [<- | Hy] Hpy; [congruence | now apply IH].
Qed.

Lemma head_sorted_largest (l : list A) (x : A) :
  StronglySorted (descending key) l ->
  hd_error l = Some x ->
  forall y, In y l -> (key y <= key x)%Z.
Proof.
  intros Hsorted Hhd y Hy.
  apply (find_sorted_largest (fun _ => true) l x Hsorted); [|assumption|reflexivity].
  destruct l; [discriminate | exact Hhd].
Qed.

End SortFacts.

(** ** The fallback choice on non-empty lists *)

Lemma before_average (a b : videoFormat) :
  JS.truthy (averageBitrate a) = true ->
  JS.truthy (averageBitrate b) = true ->
  JS.before (fun a b => JS.sub (averageBitrate b) (averageBitrate a)) a b
  = (averageOf b <=? averageOf a)%Z.
Proof.
  unfold JS.before, JS.sub, averageOf, JS.truthy.
  destruct (averageBitrate a) as [x|]; [|discriminate].
  destruct (averageBitrate b) as [y|]; [|discriminate].
  intros _ _.
  destruct (Z.leb_spec (y - x) 0), (Z.leb_spec y x); try reflexivity; lia.
Qed.

Lemma before_audio (a b : videoFormat) :
  audioBitrate a <> None ->
  audioBitrate b <> None ->
  JS.before (fun a b => JS.sub (audioBitrate b) (audioBitrate a)) a b
  = (audioOf b <=? audioOf a)%Z.
Proof.
  unfold JS.before, JS.sub, audioOf.
  destruct (audioBitrate a) as [x|]; [|congruence].
  destruct (audioBitrate b) as [y|]; [|congruence].
  intros _ _.
  destruct (Z.leb_spec (y - x) 0), (Z.leb_spec y x); try reflexivity; lia.
Qed.

(** X21.  A finite source (first format not live): among the formats that
    report an average bitrate, the choice is one without a bitrate if
    there is one — the one of largest average bitrate among those — and
    otherwise the one of largest average bitrate; there is no choice
    exactly when no format reports an average bitrate. *)
Lemma nextBestFormat_finite (first : videoFormat) (rest : list videoFormat) :
  live first = false ->
  let reporting format :=
    In format (first :: rest) /\ JS.truthy (averageBitrate format) = true in
  match GetStream.nextBestFormat (first :: rest) with
  | inl _ => False
  | inr None => forall format, ~ reporting format
  | inr (Some chosen) =>
      reporting chosen
      /\ ((exists other, reporting other /\ JS.truthy (bitrate other) = false) ->
          JS.truthy (bitrate chosen) = false
          /\ forall other, reporting other -> JS.truthy (bitrate other) = false ->
                           (averageOf other <= averageOf chosen)%Z)
      /\ ((forall other, reporting other -> JS.truthy (bitrate other) = true) ->
          forall other, reporting other ->
                        (averageOf other <= averageOf chosen)%Z)
  end.
Proof.
  intros Hlive reporting. unfold GetStream.nextBestFormat. rewrite Hlive.
  set (cmp := fun a b : videoFormat =>
                JS.sub (averageBitrate b) (averageBitrate a)).
  set (kept := List.filter (fun format => JS.truthy (averageBitrate format))
                           (first :: rest)).
  set (sorted := JS.sort cmp kept).
  assert (Hin : forall format, In format sorted <-> reporting format).
  { intros format. unfold sorted. rewrite sort_In. unfold kept.
    rewrite filter_In. reflexivity. }
  assert (Hsorted : StronglySorted (descending averageOf) sorted).
  { apply sort_sorted
      with (dom := fun format => JS.truthy (averageBitrate format) = true).
    - intros a b Ha Hb. now apply before_average.
    - apply List.Forall_forall. intros format Hf. unfold kept in Hf.
      apply filter_In in Hf. tauto. }
  destruct (List.find (fun format => negb (JS.truthy (bitrate format))) sorted)
    as [chosen|] eqn:Hfind.
  - destruct (find_some _ _ Hfind) as [Hch Hno].
    apply negb_true_iff in Hno.
    split; [now apply Hin|]. split.
    + intros _. split; [assumption|].
      intros other Hother Hnone.
      apply (find_sorted_largest averageOf _ sorted chosen Hsorted Hfind).
      * now apply Hin.
      * now rewrite Hnone.
    + intros Hall. specialize (Hall chosen (proj1 (Hin chosen) Hch)). congruence.
  - pose proof (find_none _ _ Hfind) as Hnone.
    destruct (hd_error sorted) as [chosen|] eqn:Hhd.
    + assert (Hch : In chosen sorted).
      { destruct sorted; [discriminate|]. injection Hhd as ->. now left. }
      split; [now apply Hin|]. split.
      * intros (other & Hother & Hno). apply Hin in Hother.
        specialize (Hnone other Hother). simpl in Hnone.
        rewrite Hno in Hnone. discriminate.
      * intros _ other Hother.
        apply (head_sorted_largest averageOf sorted chosen Hsorted Hhd).
        now apply Hin.
    + intros format Hrep. apply Hin in Hrep.
      destruct sorted; [destruct Hrep | discriminate].
Qed.

(** X22.  A live source (first format live) whose formats all carry an audio
    bitrate: the choice is a format with a whitelisted itag, of largest
    audio bitrate among those; there is no choice exactly when no itag
    is whitelisted. *)
Lemma nextBestFormat_live (first : videoFormat) (rest : list videoFormat) :
  live first = true ->
  (forall format, In format (first :: rest) -> audioBitrate format <> None) ->
  let listed format :=
    In format (first :: rest)
    /\ GetStream.includes GetStream.liveItags (itag format) = true in
  match GetStream.nextBestFormat (first :: rest) with
  | inl _ => False
  | inr None => forall format, ~ listed format
  | inr (Some chosen) =>
      listed chosen
      /\ forall other, listed other -> (audioOf other <= audioOf chosen)%Z
  end.
Proof.
  intros Hlive Haudio listed. unfold GetStream.nextBestFormat. rewrite Hlive.
  set (cmp := fun a b : videoFormat =>
                JS.sub (audioBitrate b) (audioBitrate a)).
  set (sorted := JS.sort cmp (first :: rest)).
  assert (Hin : forall format, In format sorted <-> In format (first :: rest)).
  { intros format. unfold sorted. apply sort_In. }
  assert (Hsorted : StronglySorted (descending audioOf) sorted).
  { apply sort_sorted with (dom := fun format => audioBitrate format <> None).
    - intros a b Ha Hb. now apply before_audio.
    - apply List.Forall_forall. exact Haudio. }
  destruct (List.find
              (fun format => GetStream.includes GetStream.liveItags (itag format))
              sorted) as [chosen|] eqn:Hfind.
  - destruct (find_some _ _ Hfind) as [Hch Hok]. split.
    + split; [now apply Hin | assumption].
    + intros other [Hother Hlisted].
      apply (find_sorted_largest audioOf _ sorted chosen Hsorted Hfind);
        [now apply Hin | assumption].
  - intros format [Hf Hlisted]. apply (proj2 (Hin format)) in Hf.
    pose proof (find_none _ _ Hfind format Hf) as Hno. cbv beta in Hno.
    congruence.
Qed.

(** C8.  A url that is not cached and whose list of formats is empty:
    [nextBestFormat] reads [formats[0].live] of the empty array, so
    [getStream] fails with the run-time type error and not with the
    no-suitable-format error; the state is untouched. *)
Theorem empty_formats_type_error :
  let s := Sample.connected (newPlayer [Sample.songA] "/data/cache" ∅) in
  isCached Sample.hasha "a" s = false
  /\ option_map formats (Sample.getInfoEmpty "a") = Some []
  /\ GetStream.nextBestFormat [] = inl TypeError
  /\ getStream Sample.hasha Sample.getInfoEmpty "a" s = (Throw TypeError, s)
  /\ message TypeError <> message NoSuitableFormatError.
Proof.
  cbv zeta. repeat split. discriminate.
Qed.

(** ** Frame: stream events touch only the files and the open streams *)

Section Frame.

Variable hasha : string -> string.

Lemma fsEvent_session (e : FsEvent) (s : State) :
  session (fsEvent hasha e s) = session s.
Proof.
  unfold fsEvent.
  destruct (negb (existsb (String.eqb (eventUrl e)) (writers s)));
    [reflexivity|].
  destruct e as [u|u|u|u]; try reflexivity.
  destruct (rename _ _ _); reflexivity.
Qed.

Lemma fsEvents_session (es : list FsEvent) (s : State) :
  session (fsEvents hasha es s) = session s.
Proof.
  revert s. induction es as [|e es IH]; intros s; [reflexivity|].
  unfold fsEvents in *. simpl. rewrite IH. apply fsEvent_session.
Qed.

Lemma createWriteStream_session (u : string) (s : State) :
  session (createWriteStream hasha u s) = session s.
Proof. reflexivity. Qed.

Lemma cacheSteps_session (cs : list CacheStep) (s : State) :
  session (cacheSteps hasha cs s) = session s.
Proof.
  revert s. induction cs as [|c cs IH]; intros s; [reflexivity|].
  unfold cacheSteps in *. simpl. rewrite IH.
  destruct c; [apply createWriteStream_session | apply fsEvent_session].
Qed.

Lemma session_cacheDir (s s' : State) :
  session s' = session s -> cacheDir s' = cacheDir s.
Proof. unfold session. now intros [= _ -> _ _ _ _ _ _ _]. Qed.

Lemma session_getCachedPath (u : string) (s s' : State) :
  session s' = session s -> getCachedPath hasha u s' = getCachedPath hasha u s.
Proof.
  intros Hs. unfold getCachedPath. now rewrite (session_cacheDir _ _ Hs).
Qed.

Lemma fsEvents_app (es1 es2 : list FsEvent) (s : State) :
  fsEvents hasha (es1 ++ es2) s = fsEvents hasha es2 (fsEvents hasha es1 s).
Proof. unfold fsEvents. apply fold_left_app. Qed.

Lemma cachedCheck_session (u : string) (maxRetries : Z)
      (sched : list (list FsEvent)) (n : Z) (fired : nat) (s : State) :
  session (after (cachedCheck hasha u maxRetries sched n fired s)) = session s.
Proof.
  revert n fired s.
  induction sched as [|events sched IH]; intros n fired s; [reflexivity|].
  simpl. destruct (isCached hasha u (fsEvents hasha events s)).
  - apply fsEvents_session.
  - destruct (n + 1 >? maxRetries)%Z; simpl.
    + apply fsEvents_session.
    + rewrite IH. apply fsEvents_session.
Qed.

Lemma waitForCache_session (u : string) (maxRetries retryDelay : Z)
      (sched : list (list FsEvent)) (s : State) :
  session (snd (waitForCache hasha u maxRetries retryDelay sched s))
  = session s.
Proof.
  unfold waitForCache, waitForCache_run. simpl.
  destruct (isCached hasha u s); [reflexivity | apply cachedCheck_session].
Qed.

End Frame.

(** ** The bounded wait *)

Section Waiting.

Variable hasha : string -> string.

Lemma neverCached_now (u : string) (sched : list (list FsEvent)) (s : State) :
  neverCached hasha u sched s -> isCached hasha u s = false.
Proof. intros Hnever. exact (Hnever 0%nat). Qed.

Lemma neverCached_step (u : string) (events : list FsEvent)
      (sched : list (list FsEvent)) (s : State) :
  neverCached hasha u (events :: sched) s ->
  neverCached hasha u sched (fsEvents hasha events s).
Proof.
  intros Hnever k. specialize (Hnever (S k)). simpl in Hnever.
  now rewrite fsEvents_app in Hnever.
Qed.

(** The interval callback on a url that never shows up: with [n] failed
    checks counted so far, it stays pending while the count has not
    passed [maxRetries], and rejects at the firing that takes the count
    to [maxRetries + 1]. *)
Lemma cachedCheck_never (u : string) (maxRetries : Z)
      (sched : list (list FsEvent)) :
  forall (n : Z) (fired : nat) (s : State),
    neverCached hasha u sched s ->
    (n <= maxRetries)%Z ->
    let r := cachedCheck hasha u maxRetries sched n fired s in
    ((n + Z.of_nat (length sched) <= maxRetries)%Z ->
     outcome r = Pending /\ firings r = (fired + length sched)%nat)
    /\ ((maxRetries < n + Z.of_nat (length sched))%Z ->
        outcome r = Throw CacheTimeoutError
        /\ Z.of_nat (firings r) = (Z.of_nat fired + (maxRetries - n) + 1)%Z).
Proof.
  induction sched as [|events sched IH]; intros n fired s Hnever Hn; simpl.
  - split.
    + intros _. split; [reflexivity | lia].
    + intros Hlt. lia.
  - pose proof (neverCached_step _ _ _ _ Hnever) as Hrest.
    rewrite (neverCached_now _ _ _ Hrest).
    destruct (Z.gtb_spec (n + 1) maxRetries) as [Hover | Hroom].
    + simpl. split.
      * intros Hfit. lia.
      * intros _. split; [reflexivity | lia].
    + specialize (IH (n + 1)%Z (S fired) _ Hrest Hroom).
      simpl in IH. destruct IH as [IHpend IHrej]. split.
      * intros Hfit. destruct IHpend as [Ho Hf]; [lia|].
        split; [assumption | lia].
      * intros Hlt. destruct IHrej as [Ho Hf]; [lia|].
        split; [assumption | lia].
Qed.

(** C6, as the code has it.  On a url that never becomes cached, with a
    non-negative [maxRetries], [waitForCache] is still pending after
    [maxRetries] firings of its interval, and rejects with the timeout
    error at firing [maxRetries + 1]: it runs the existence check
    [maxRetries + 1] times after the first one, takes
    [(maxRetries + 1) * retryDelay] in all, and never checks again. *)
Theorem waitForCache_rejects_after_one_more
        (u : string) (maxRetries retryDelay : Z)
        (sched : list (list FsEvent)) (s : State) :
  (0 <= maxRetries)%Z ->
  neverCached hasha u sched s ->
  let r := waitForCache_run hasha u maxRetries sched s in
  fst (waitForCache hasha u maxRetries retryDelay sched s) = outcome r
  /\ ((Z.of_nat (length sched) <= maxRetries)%Z ->
      outcome r = Pending /\ firings r = length sched)
  /\ ((maxRetries < Z.of_nat (length sched))%Z ->
      outcome r = Throw CacheTimeoutError
      /\ Z.of_nat (firings r) = (maxRetries + 1)%Z
      /\ elapsed retryDelay r = ((maxRetries + 1) * retryDelay)%Z).
Proof.
  intros Hmax Hnever r. split; [reflexivity|].
  subst r. unfold waitForCache_run.
  rewrite (neverCached_now _ _ _ Hnever).
  destruct (cachedCheck_never u maxRetries sched 0%Z 0%nat s Hnever Hmax)
    as [Hpend Hrej].
  split.
  - intros Hfit. destruct Hpend as [Ho Hf]; [lia|]. now split.
  - intros Hlt. destruct Hrej as [Ho Hf]; [lia|].
    split; [assumption|]. split; [lia|].
    unfold elapsed. rewrite Hf. f_equal. lia.
Qed.

(** Whatever the files do, the wait settles once the interval has fired
    more than [maxRetries] times. *)
Lemma cachedCheck_settles (u : string) (maxRetries : Z)
      (sched : list (list FsEvent)) :
  forall (n : Z) (fired : nat) (s : State),
    (n <= maxRetries)%Z ->
    (maxRetries < n + Z.of_nat (length sched))%Z ->
    outcome (cachedCheck hasha u maxRetries sched n fired s) <> Pending.
Proof.
  induction sched as [|events sched IH]; intros n fired s Hn Hlen; simpl.
  - simpl in Hlen. lia.
  - destruct (isCached hasha u (fsEvents hasha events s)); [discriminate|].
    destruct (Z.gtb_spec (n + 1) maxRetries) as [Hover | Hroom];
      [discriminate|].
    apply IH; [assumption|]. simpl length in Hlen. lia.
Qed.

(** [waitForCache] with the defaults of the source settles within 51
    firings of its interval. *)
Lemma waitForCache_settles (u : string) (retryDelay : Z)
      (sched : list (list FsEvent)) (s : State) :
  (50 < length sched)%nat ->
  fst (waitForCache hasha u 50 retryDelay sched s) <> Pending.
Proof.
  intros Hlen. unfold waitForCache, waitForCache_run. simpl.
  destruct (isCached hasha u s); [discriminate|].
  apply cachedCheck_settles; lia.
Qed.

End Waiting.

(** ** The cache entry appears by rename only *)

Lemma rename_elem (old new p : string) (files files' : gset string) :
  rename old new files = Some files' ->
  (p ∈ files' <-> p = new \/ (p ∈ files /\ p <> old)).
Proof.
  unfold rename. destruct (bool_decide (old ∈ files)); [|discriminate].
  intros [= <-]. rewrite elem_of_union, elem_of_singleton,
    elem_of_difference, elem_of_singleton. tauto.
Qed.

Section Cache.

Variable hasha : string -> string.
Variable getInfo : string -> option videoInfo.

Lemma isCached_true (u : string) (s : State) :
  isCached hasha u s = true <-> getCachedPath hasha u s ∈ fs s.
Proof. unfold isCached. apply bool_decide_eq_true. Qed.

Lemma isCached_false (u : string) (s : State) :
  isCached hasha u s = false <-> getCachedPath hasha u s ∉ fs s.
Proof. unfold isCached. apply bool_decide_eq_false. Qed.

(** The only thing [getStream] does to the world is to open the cache
    write stream of its url. *)
Lemma getStream_opens_writer (u : string) (s : State) :
  snd (getStream hasha getInfo u s) = s
  \/ snd (getStream hasha getInfo u s) = cacheStep hasha (OpenWriter u) s.
Proof.
  unfold getStream. destruct (isCached hasha u s); [now left|].
  destruct (getInfo u) as [info|]; [|now left].
  destruct (List.find GetStream.filter (formats info)) as [format|].
  - destruct (isLiveContent info); simpl; [now left | now right].
  - destruct (GetStream.nextBestFormat (formats info)) as [e|[format|]];
      [now left | | now left].
    destruct (isLiveContent info); simpl; [now left | now right].
Qed.

(** Whenever [getStream] opens a cache write stream it also returns the
    reader for the voice connection: the reader is handed back in the
    same turn, before the write stream has had any event. *)
Lemma getStream_writer_and_reader (u : string) (s : State) :
  writers (snd (getStream hasha getInfo u s)) <> writers s ->
  exists r, fst (getStream hasha getInfo u s)
            = Ok (FromStream (capacitorReadStream r)).
Proof.
  unfold getStream. destruct (isCached hasha u s); [simpl; congruence|].
  destruct (getInfo u) as [info|]; [|simpl; congruence].
  destruct (List.find GetStream.filter (formats info)) as [format|].
  - intros _. now exists (downloadFromInfo format).
  - destruct (GetStream.nextBestFormat (formats info)) as [e|[format|]];
      [simpl; congruence | | simpl; congruence].
    intros _. now exists (ffmpegOpus (f_url format) GetStream.reconnectOptions).
Qed.

(** A step that is not the end of a write to [final], and whose temp
    path is not [final], does not create [final]. *)
Lemma cacheStep_keeps_absent (final : string) (c : CacheStep) (s0 s : State) :
  session s = session s0 ->
  final ∉ fs s ->
  ~ publishesTo hasha final s0 c ->
  scratchOf hasha c <> final ->
  final ∉ fs (cacheStep hasha c s).
Proof.
  intros Hsess Habsent Hquiet Hscratch.
  destruct c as [v | e]; simpl.
  - rewrite elem_of_union, elem_of_singleton.
    intros [Heq | Hin]; [| now apply Habsent].
    apply Hscratch. unfold scratchOf. simpl. now symmetry.
  - unfold fsEvent.
    destruct (negb (existsb (String.eqb (eventUrl e)) (writers s)));
      [assumption|].
    destruct e as [v|v|v|v]; try assumption.
    destruct (rename _ _ (fs s)) as [files|] eqn:Hren; simpl; [|assumption].
    rewrite (rename_elem _ _ final _ _ Hren).
    intros [Heq | [Hin _]]; [| now apply Habsent].
    apply Hquiet. simpl.
    rewrite <- (session_getCachedPath hasha v _ _ Hsess). now symmetry.
Qed.

(** A step whose temp path is not [final] does not remove [final]. *)
Lemma cacheStep_keeps_present (final : string) (c : CacheStep) (s : State) :
  final ∈ fs s ->
  scratchOf hasha c <> final ->
  final ∈ fs (cacheStep hasha c s).
Proof.
  intros Hpresent Hscratch.
  destruct c as [v | e]; simpl.
  - rewrite elem_of_union. now right.
  - unfold fsEvent.
    destruct (negb (existsb (String.eqb (eventUrl e)) (writers s)));
      [assumption|].
    destruct e as [v|v|v|v]; try assumption.
    destruct (rename _ _ (fs s)) as [files|] eqn:Hren; simpl; [|assumption].
    rewrite (rename_elem _ _ final _ _ Hren). right.
    split; [assumption|]. intros Heq. apply Hscratch.
    unfold scratchOf. simpl. now symmetry.
Qed.

Lemma cacheSteps_keep_absent (final : string) (s0 : State)
      (cs : list CacheStep) :
  forall s : State,
    session s = session s0 ->
    final ∉ fs s ->
    Forall (fun c => ~ publishesTo hasha final s0 c
                     /\ scratchOf hasha c <> final) cs ->
    final ∉ fs (cacheSteps hasha cs s).
Proof.
  induction cs as [|c cs IH]; intros s Hsess Habsent Hall; [assumption|].
  inversion Hall as [|c' cs' [Hquiet Hscratch] Hrest]; subst.
  unfold cacheSteps in *. simpl. apply IH; [| |assumption].
  - rewrite <- Hsess. apply (cacheSteps_session hasha [c] s).
  - now apply cacheStep_keeps_absent with (s0 := s0).
Qed.

Lemma cacheSteps_keep_present (final : string) (cs : list CacheStep) :
  forall s : State,
    final ∈ fs s ->
    Forall (fun c => scratchOf hasha c <> final) cs ->
    final ∈ fs (cacheSteps hasha cs s).
Proof.
  induction cs as [|c cs IH]; intros s Hpresent Hall; [assumption|].
  inversion Hall as [|c' cs' Hscratch Hrest]; subst.
  unfold cacheSteps in *. simpl. apply IH; [|assumption].
  now apply cacheStep_keeps_present.
Qed.

(** The 'finish' listener of an open stream whose temp file exists
    creates the final path. *)
Lemma finish_publishes (u : string) (s : State) :
  In u (writers s) ->
  getCachedPathTemp hasha u ∈ fs s ->
  isCached hasha u (fsEvent hasha (Finish u) s) = true.
Proof.
  intros Hopen Htemp. apply isCached_true.
  rewrite (session_getCachedPath hasha u _ _ (fsEvent_session hasha _ s)).
  unfold fsEvent. simpl eventUrl.
  assert (Hex : existsb (String.eqb u) (writers s) = true).
  { apply existsb_exists. exists u. split; [assumption | apply String.eqb_refl]. }
  rewrite Hex. simpl negb. cbv iota.
  destruct (rename _ _ (fs s)) as [files|] eqn:Hren.
  - simpl. rewrite (rename_elem _ _ _ _ _ Hren). now left.
  - unfold rename in Hren.
    rewrite (bool_decide_eq_true_2 _ Htemp) in Hren. discriminate.
Qed.

(** C5, as the code has it.  Take a url that is not cached.  Along any
    run of writer openings and stream events — chunks, write failures,
    failed renames, of this or of other urls — in which no write that
    targets the final path of the url finishes, and in which the temp
    paths in use differ from that final path, the existence check stays
    false.  The 'finish' of an open writer of the url, with its temp
    file in place, makes it true.  From then on it stays true along any
    run whose temp paths differ from the final path. *)
Theorem cache_entry_appears_by_rename (u : string) (s : State) :
  isCached hasha u s = false ->
  let final := getCachedPath hasha u s in
  (forall steps : list CacheStep,
      Forall (fun c => ~ publishesTo hasha final s c
                       /\ scratchOf hasha c <> final) steps ->
      isCached hasha u (cacheSteps hasha steps s) = false)
  /\ (forall steps : list CacheStep,
         let s1 := cacheSteps hasha steps s in
         In u (writers s1) ->
         getCachedPathTemp hasha u ∈ fs s1 ->
         isCached hasha u (cacheStep hasha (StreamEvent (Finish u)) s1) = true)
  /\ (forall before later : list CacheStep,
         let s2 := cacheSteps hasha before s in
         isCached hasha u s2 = true ->
         Forall (fun c => scratchOf hasha c <> final) later ->
         isCached hasha u (cacheSteps hasha later s2) = true).
Proof.
  intros Hmiss final. split; [|split].
  - intros steps Hall. apply isCached_false.
    rewrite (session_getCachedPath hasha u _ _ (cacheSteps_session hasha steps s)).
    apply cacheSteps_keep_absent with (s0 := s); [reflexivity | | assumption].
    now apply isCached_false.
  - intros steps s1 Hopen Htemp. simpl. now apply finish_publishes.
  - intros before later s2 Hhit Hall. apply isCached_true.
    rewrite (session_getCachedPath hasha u _ _
               (cacheSteps_session hasha later s2)).
    apply isCached_true in Hhit.
    assert (Hfinal : getCachedPath hasha u s2 = final).
    { apply session_getCachedPath. apply cacheSteps_session. }
    rewrite Hfinal in *. now apply cacheSteps_keep_present.
Qed.

End Cache.

(** ** Position tracking across [play], [seek] and the end of a track *)

Section Playback.

Variable hasha : string -> string.
Variable getInfo : string -> option videoInfo.

Lemma startTrackingPosition_position (initalPosition : option Z) (s : State) :
  positionInSeconds (startTrackingPosition initalPosition s)
  = match initalPosition with
    | Some p => if (p =? 0)%Z then positionInSeconds s else p
    | None => positionInSeconds s
    end.
Proof.
  unfold startTrackingPosition, setInterval.
  destruct initalPosition as [p|]; simpl.
  - destruct (p =? 0)%Z; simpl; destruct (playPositionInterval s); reflexivity.
  - destruct (playPositionInterval s); reflexivity.
Qed.

Lemma startTrackingPosition_status (initalPosition : option Z) (s : State) :
  status (startTrackingPosition initalPosition s) = status s.
Proof.
  unfold startTrackingPosition, setInterval.
  destruct initalPosition as [p|]; simpl.
  - destruct (p =? 0)%Z; simpl; destruct (playPositionInterval s); reflexivity.
  - destruct (playPositionInterval s); reflexivity.
Qed.

Lemma startTrackingPosition_tracking (initalPosition : option Z) (s : State) :
  tracking (startTrackingPosition initalPosition s) = true.
Proof.
  unfold tracking, startTrackingPosition, setInterval. simpl.
  apply bool_decide_eq_true. apply elem_of_union. left.
  now apply elem_of_singleton.
Qed.

Lemma tracking_set_status (v : STATUS) (s : State) :
  tracking (set_status v s) = tracking s.
Proof. reflexivity. Qed.

Lemma attachListeners_position (s : State) :
  positionInSeconds (attachListeners s) = positionInSeconds s.
Proof.
  unfold attachListeners. destruct (voiceConnection s); [|reflexivity].
  simpl. destruct (dispatcher s); reflexivity.
Qed.

Lemma getStream_position (u : string) (s : State) :
  positionInSeconds (snd (getStream hasha getInfo u s)) = positionInSeconds s.
Proof.
  destruct (getStream_opens_writer hasha getInfo u s) as [-> | ->];
    reflexivity.
Qed.

Lemma waitForCache_position (u : string) (maxRetries retryDelay : Z)
      (sched : list (list FsEvent)) (s : State) :
  positionInSeconds (snd (waitForCache hasha u maxRetries retryDelay sched s))
  = positionInSeconds s.
Proof.
  pose proof (waitForCache_session hasha u maxRetries retryDelay sched s) as H.
  unfold session in H. now injection H.
Qed.

(** What a successful [seek] leaves: status [PLAYING], a running
    tracker, and the position set to the requested offset unless that
    offset is 0, in which case the position is the old one. *)
Lemma seek_ok (sched : list (list FsEvent)) (p : Z) (s s' : State) :
  seek hasha sched p s = (Ok tt, s') ->
  status s' = PLAYING
  /\ tracking s' = true
  /\ getPosition s' = if (p =? 0)%Z then getPosition s else p.
Proof.
  unfold seek. js_unfold.
  destruct (voiceConnection s); [|discriminate].
  destruct (getCurrentSong s) as [song|]; [|discriminate].
  pose proof (waitForCache_position (url song) 50 500 sched s) as Hpos.
  destruct (waitForCache hasha (url song) 50 500 sched s) as [[[]|e|] s1];
    [|discriminate|discriminate].
  simpl in Hpos. intros [= <-]. split; [reflexivity|]. split.
  - rewrite tracking_set_status. apply startTrackingPosition_tracking.
  - unfold getPosition.
    change (positionInSeconds (set_status PLAYING ?x))
      with (positionInSeconds x).
    rewrite startTrackingPosition_position, attachListeners_position.
    simpl. now rewrite Hpos.
Qed.

(** What a successful [play] leaves when the status was not [PAUSED]:
    status [PLAYING], a running tracker, and the position it found. *)
Lemma play_fresh_ok (sched : list (list FsEvent)) (s s' : State) :
  status s <> PAUSED ->
  play hasha getInfo sched s = (Ok tt, s') ->
  status s' = PLAYING
  /\ tracking s' = true
  /\ getPosition s' = getPosition s.
Proof.
  intros Hst. unfold play. js_unfold.
  destruct (voiceConnection s); [|discriminate].
  assert (Hfresh :
    forall s1 : State,
      positionInSeconds s1 = positionInSeconds s ->
      (Ok tt, startTrackingPosition None (set_status PLAYING (attachListeners s1)))
      = (Ok tt, s') ->
      status s' = PLAYING /\ tracking s' = true
      /\ getPosition s' = getPosition s).
  { intros s1 Hpos [= <-]. split; [|split].
    - now rewrite startTrackingPosition_status.
    - apply startTrackingPosition_tracking.
    - unfold getPosition. rewrite startTrackingPosition_position. simpl.
      now rewrite attachListeners_position. }
  destruct (status s) eqn:Hs; [|congruence|].
  all: destruct (getCurrentSong s) as [song|]; [|discriminate].
  all: destruct (isCached hasha (url song) s);
    [ apply Hfresh; reflexivity |].
  all: pose proof (getStream_position (url song) s) as Hpos.
  all: destruct (getStream hasha getInfo (url song) s) as [[input|e|] s1];
    [|discriminate|discriminate].
  all: simpl in Hpos; apply Hfresh; exact Hpos.
Qed.

(** ** The end-of-track listener *)

Lemma onSpeaking_advances (sched : list (list FsEvent)) (s : State)
      (song : QueuedSong) (rest : list QueuedSong) :
  status s = PLAYING ->
  queue s = song :: rest ->
  onSpeaking hasha getInfo sched false s
  = play hasha getInfo sched (set_queue rest s).
Proof.
  intros Hst Hq. unfold onSpeaking. js_unfold. rewrite Hst, Hq. simpl.
  now rewrite Hq.
Qed.

Lemma onSpeaking_empty_queue (sched : list (list FsEvent)) (s : State) :
  queue s = [] ->
  onSpeaking hasha getInfo sched false s = (Ok tt, s).
Proof.
  intros Hq. unfold onSpeaking. js_unfold.
  destruct (status s); simpl; rewrite ?Hq; reflexivity.
Qed.

(** At the end of the last queued track the listener drops the head and
    calls [play] on the queue it has just emptied. *)
Lemma onSpeaking_last_track (sched : list (list FsEvent)) (s : State)
      (song : QueuedSong) :
  status s = PLAYING ->
  voiceConnection s <> None ->
  queue s = [song] ->
  onSpeaking hasha getInfo sched false s
  = (Throw EmptyQueueError, set_queue [] s).
Proof.
  intros Hst Hconn Hq. rewrite (onSpeaking_advances sched s song []) by easy.
  unfold play. js_unfold.
  change (voiceConnection (set_queue [] s)) with (voiceConnection s).
  destruct (voiceConnection s); [|congruence].
  change (status (set_queue [] s)) with (status s).
  now rewrite Hst.
Qed.

End Playback.

(* ===================================================================== *)
(** * The code on concrete runs                                           *)
(* ===================================================================== *)

(** C1.  Queue [A, B].  [play()] starts A with the position at 0; three
    seconds pass; the dispatcher reports silence.  The listener advances
    the queue and [play()] starts B from its beginning (no seek offset
    is given to the connection), with the status still [PLAYING] and a
    running tracker, but the position read back is 3, not 0: [play]
    calls [startTrackingPosition()] without an argument, which leaves
    [positionInSeconds] as the previous track left it. *)
Theorem next_track_keeps_old_position :
  fst (play Sample.hasha Sample.getInfo [] Sample.joined) = Ok tt
  /\ getPosition Sample.playingA = 0%Z
  /\ getPosition Sample.threeSecondsIn = 3%Z
  /\ fst (onSpeaking Sample.hasha Sample.getInfo [] false Sample.threeSecondsIn)
     = Ok tt
  /\ (let s := snd (onSpeaking Sample.hasha Sample.getInfo [] false
                               Sample.threeSecondsIn) in
      status s = PLAYING
      /\ queue s = [Sample.songB]
      /\ option_map d_seek (dispatcher s) = Some None
      /\ tracking s = true
      /\ getPosition s = 3%Z
      /\ getPosition s <> 0%Z).
Proof.
  vm_compute. repeat split; discriminate.
Qed.

(** C2.  A is cached and has been playing for three seconds.  [seek(0)]
    succeeds, restarts A at offset 0 with status [PLAYING], but the
    position read back is still 3: [startTrackingPosition(0)] tests its
    argument for truthiness, and 0 is falsy. *)
Theorem seek_zero_keeps_old_position :
  getPosition Sample.cachedThreeSecondsIn = 3%Z
  /\ fst (seek Sample.hasha [] 0 Sample.cachedThreeSecondsIn) = Ok tt
  /\ (let s := snd (seek Sample.hasha [] 0 Sample.cachedThreeSecondsIn) in
      status s = PLAYING
      /\ option_map d_seek (dispatcher s) = Some (Some 0%Z)
      /\ getPosition s = 3%Z
      /\ getPosition s <> 0%Z).
Proof.
  vm_compute. repeat split; discriminate.
Qed.

(** [seek(30)] while A is still being downloaded: the wait sees the
    'finish' of the cache writer at the second firing, and the seek then
    goes through with the tracker at 30. *)
Example seek_during_download :
  isCached Sample.hasha "a" Sample.playingA = false
  /\ fst (seek Sample.hasha [[Chunk "a"]; [Finish "a"]] 30 Sample.playingA)
     = Ok tt
  /\ (let s := snd (seek Sample.hasha [[Chunk "a"]; [Finish "a"]] 30
                         Sample.playingA) in
      status s = PLAYING /\ getPosition s = 30%Z
      /\ isCached Sample.hasha "a" s = true)
  /\ fst (seek Sample.hasha [[Chunk "a"]] 30 Sample.playingA) = Pending.
Proof.
  vm_compute. repeat split.
Qed.

(** C3.  The queue holds A only and A is playing.  When the dispatcher
    reports silence the listener finds the queue non-empty, drops A and
    calls [play()], which rejects with the empty-queue error; the queue
    has been emptied on the way. *)
Theorem last_track_end_throws :
  status Sample.lastTrack = PLAYING
  /\ queue Sample.lastTrack = [Sample.songA]
  /\ fst (onSpeaking Sample.hasha Sample.getInfo [] false Sample.lastTrack)
     = Throw EmptyQueueError
  /\ queue (snd (onSpeaking Sample.hasha Sample.getInfo [] false
                            Sample.lastTrack)) = [].
Proof.
  vm_compute. repeat split.
Qed.

(** ** The wait on concrete schedules *)

Lemma concat_firstn_quiet (n k : nat) :
  concat (firstn k (Sample.quiet n)) = ([] : list FsEvent).
Proof.
  revert k. unfold Sample.quiet.
  induction n as [|n IH]; intros k; simpl.
  - now rewrite firstn_nil.
  - destruct k as [|k]; [reflexivity|]. simpl. apply IH.
Qed.

Lemma neverCached_quiet (hasha : string -> string) (u : string) (n : nat)
      (s : State) :
  isCached hasha u s = false -> neverCached hasha u (Sample.quiet n) s.
Proof.
  intros Hmiss k. now rewrite concat_firstn_quiet.
Qed.

(** C6, the claim as written fails.  [maxRetries = 3], [retryDelay = 10],
    a url that never appears.  After three firings of the interval (30
    ms) the promise is still pending; given more time it rejects at the
    fourth firing (40 ms), having run the existence check four times
    after the first one. *)
Lemma waitForCache_three_retries_four_polls :
  isCached Sample.hasha "a" Sample.joined = false
  /\ outcome (waitForCache_run Sample.hasha "a" 3 (Sample.quiet 3) Sample.joined)
     = Pending
  /\ (let r := waitForCache_run Sample.hasha "a" 3 (Sample.quiet 9)
                                Sample.joined in
      outcome r = Throw CacheTimeoutError
      /\ firings r = 4%nat
      /\ firings r <> 3%nat
      /\ elapsed 10 r = 40%Z
      /\ elapsed 10 r <> 30%Z).
Proof.
  vm_compute. repeat split; discriminate.
Qed.

(** The same runs, through the general statement: pending after three
    firings, rejected at the fourth. *)
Lemma waitForCache_rejects_after_one_more_sample :
  (0 <= 3)%Z
  /\ neverCached Sample.hasha "a" (Sample.quiet 9) Sample.joined
  /\ outcome (waitForCache_run Sample.hasha "a" 3 (Sample.quiet 3) Sample.joined)
     = Pending
  /\ outcome (waitForCache_run Sample.hasha "a" 3 (Sample.quiet 9) Sample.joined)
     = Throw CacheTimeoutError
  /\ Z.of_nat (firings (waitForCache_run Sample.hasha "a" 3 (Sample.quiet 9)
                                         Sample.joined)) = (3 + 1)%Z
  /\ elapsed 10 (waitForCache_run Sample.hasha "a" 3 (Sample.quiet 9)
                                  Sample.joined) = ((3 + 1) * 10)%Z.
Proof.
  assert (Hmax : (0 <= 3)%Z) by lia.
  assert (Hmiss : isCached Sample.hasha "a" Sample.joined = false)
    by reflexivity.
  pose proof (neverCached_quiet Sample.hasha "a" 3 Sample.joined Hmiss)
    as Hnever3.
  pose proof (neverCached_quiet Sample.hasha "a" 9 Sample.joined Hmiss)
    as Hnever9.
  split; [exact Hmax|]. split; [exact Hnever9|]. split.
  - destruct (waitForCache_rejects_after_one_more
                Sample.hasha "a" 3 10 (Sample.quiet 3) Sample.joined
                Hmax Hnever3) as (_ & Hpend & _).
    apply Hpend. simpl. lia.
  - destruct (waitForCache_rejects_after_one_more
                Sample.hasha "a" 3 10 (Sample.quiet 9) Sample.joined
                Hmax Hnever9) as (_ & _ & Hrej).
    apply Hrej. simpl. lia.
Defined.

(** ** The cache on concrete runs *)

(** C5, the claim as written fails.  With [/tmp] as the cache directory
    the temp path of a url is its final path.  [play()] on the uncached A
    opens the cache write stream, and from that moment, with the stream
    still open and no 'finish' seen, the existence check answers true. *)
Lemma tmp_cache_dir_shows_unfinished_file :
  isCached Sample.hasha "a" Sample.joinedTmp = false
  /\ fst (play Sample.hasha Sample.getInfo [] Sample.joinedTmp) = Ok tt
  /\ (let s := snd (play Sample.hasha Sample.getInfo [] Sample.joinedTmp) in
      writers s = ["a"]
      /\ getCachedPathTemp Sample.hasha "a" = getCachedPath Sample.hasha "a" s
      /\ isCached Sample.hasha "a" s = true)
  /\ isCached Sample.hasha "a"
       (cacheSteps Sample.hasha [OpenWriter "a"; StreamEvent (Chunk "a")]
                   Sample.joinedTmp) = true.
Proof.
  vm_compute. repeat split.
Qed.

(** With [/data/cache] as the cache directory: A is opened, written,
    fails, is opened again and written, and stays invisible; its 'finish'
    makes it visible; the download of B afterwards leaves it visible. *)
Lemma cache_entry_appears_by_rename_sample :
  isCached Sample.hasha "a" Sample.joined = false
  /\ isCached Sample.hasha "a"
       (cacheSteps Sample.hasha
          [OpenWriter "a"; StreamEvent (Chunk "a");
           StreamEvent (WriteError "a"); OpenWriter "a";
           StreamEvent (Chunk "a"); StreamEvent (FinishRenameFails "a")]
          Sample.joined) = false
  /\ isCached Sample.hasha "a"
       (cacheStep Sample.hasha (StreamEvent (Finish "a"))
          (cacheSteps Sample.hasha [OpenWriter "a"; StreamEvent (Chunk "a")]
                      Sample.joined)) = true
  /\ isCached Sample.hasha "a"
       (cacheSteps Sample.hasha
          [OpenWriter "b"; StreamEvent (Chunk "b"); StreamEvent (Finish "b")]
          (cacheSteps Sample.hasha
             [OpenWriter "a"; StreamEvent (Finish "a")] Sample.joined))
     = true.
Proof.
  assert (Hmiss : isCached Sample.hasha "a" Sample.joined = false)
    by reflexivity.
  destruct (cache_entry_appears_by_rename Sample.hasha "a" Sample.joined Hmiss)
    as (Hbefore & Hfinish & Hafter).
  split; [exact Hmiss|]. split; [|split].
  - apply Hbefore.
    repeat constructor; try (intros H; exact H); vm_compute; discriminate.
  - apply (Hfinish [OpenWriter "a"; StreamEvent (Chunk "a")]).
    + vm_compute. now left.
    + vm_compute. reflexivity.
  - apply (Hafter [OpenWriter "a"; StreamEvent (Finish "a")]).
    + vm_compute. reflexivity.
    + repeat constructor; vm_compute; discriminate.
Defined.

(** ** Acquisition on a concrete url *)

Lemma native_format_direct_play_sample :
  exists pre format post r,
    [Sample.aacMp4; Sample.opusWebm] = (pre ++ format :: post)%list
    /\ isNative format
    /\ (forall other, In other pre -> ~ isNative other)
    /\ fst (getStream Sample.hasha Sample.getInfo "a" Sample.joined)
       = Ok (FromStream r)
    /\ r = capacitorReadStream (downloadFromInfo format)
    /\ transcoded r = false.
Proof.
  apply (native_format_direct_play Sample.hasha Sample.getInfo "a" Sample.joined
           {| formats := [Sample.aacMp4; Sample.opusWebm];
              isLiveContent := false |}).
  - reflexivity.
  - reflexivity.
  - exists Sample.opusWebm. split.
    + right. left. reflexivity.
    + repeat split.
Defined.

(** ** Guards on concrete states *)

Lemma not_connected_first_sample :
  voiceConnection Sample.pausedUnconnected = None
  /\ status Sample.pausedUnconnected = PAUSED
  /\ queue Sample.pausedUnconnected = []
  /\ play Sample.hasha Sample.getInfo [] Sample.pausedUnconnected
     = (Throw NotConnectedError, Sample.pausedUnconnected)
  /\ (forall p : Z,
         seek Sample.hasha [] p Sample.pausedUnconnected
         = (Throw NotConnectedError, Sample.pausedUnconnected))
  /\ fst (play Sample.hasha Sample.getInfo [] Sample.pausedUnconnected)
     <> Throw EmptyQueueError.
Proof.
  split; [reflexivity|]. split; [reflexivity|]. split; [reflexivity|].
  apply (not_connected_first Sample.hasha Sample.getInfo []
           Sample.pausedUnconnected).
  reflexivity.
Defined.

Lemma pause_only_when_playing_sample :
  status Sample.joined <> PLAYING
  /\ pause Sample.joined = (Throw NotPlayingError, Sample.joined)
  /\ status Sample.threeSecondsIn = PLAYING
  /\ dispatcher Sample.threeSecondsIn = Some Sample.dispatcherA
  /\ d_paused Sample.dispatcherA = false
  /\ playPositionInterval Sample.threeSecondsIn = Some 0%nat
  /\ 0%nat ∈ timers Sample.threeSecondsIn
  /\ exists s' : State,
       pause Sample.threeSecondsIn = (Ok tt, s')
       /\ status s' = PAUSED
       /\ (exists d' : StreamDispatcher,
              dispatcher s' = Some d'
              /\ d_paused d' = true
              /\ d_input d' = d_input Sample.dispatcherA
              /\ d_seek d' = d_seek Sample.dispatcherA
              /\ d_type d' = d_type Sample.dispatcherA
              /\ d_speakingListeners d'
                 = d_speakingListeners Sample.dispatcherA)
       /\ timers s' = timers Sample.threeSecondsIn ∖ {[0%nat]}
       /\ (0%nat ∉ timers s')
       /\ tracking s' = false
       /\ getPosition s' = 3%Z.
Proof.
  assert (Hidle : status Sample.joined <> PLAYING) by discriminate.
  assert (Hplay : status Sample.threeSecondsIn = PLAYING) by reflexivity.
  split; [exact Hidle|]. split.
  - exact (proj1 (pause_only_when_playing Sample.joined) Hidle).
  - split; [exact Hplay|].
    split; [reflexivity|]. split; [reflexivity|]. split; [reflexivity|].
    split; [apply (bool_decide_unpack _); vm_compute; exact I|].
    destruct (proj2 (pause_only_when_playing Sample.threeSecondsIn) Hplay)
      as (s' & Hrun & Hst & _ & Hd & _ & Ht & Hoff & _ & _ & Hpos & _).
    exists s'. split; [exact Hrun|]. split; [exact Hst|].
    split; [exact Hd|]. split; [exact (proj1 Ht)|].
    split; [exact (proj2 Ht)|]. split; [exact Hoff|]. exact Hpos.
Defined.

(** ** The ['finish'] listener of the cache writer *)

Lemma onFinish_renames (hasha : string -> string) (u : string) (s : State) :
  getCachedPathTemp hasha u ∈ fs s ->
  onFinish hasha u s
  = (Ok tt,
     set_fs ({[getCachedPath hasha u s]}
               ∪ (fs s ∖ {[getCachedPathTemp hasha u]})) s).
Proof.
  intros Hin. unfold onFinish, rename. js_unfold.
  now rewrite (bool_decide_eq_true_2 _ Hin).
Qed.

Lemma onFinish_rejects (hasha : string -> string) (u : string) (s : State) :
  getCachedPathTemp hasha u ∉ fs s ->
  onFinish hasha u s = (Throw RenameError, s).
Proof.
  intros Hout. unfold onFinish, rename. js_unfold.
  now rewrite (bool_decide_eq_false_2 _ Hout).
Qed.

(** The [Finish] event of a stream that is open is its listener
    running, with the stream closed; a rejection of the listener leaves
    no other trace. *)
Lemma fsEvent_finish_listener (hasha : string -> string) (u : string)
      (s : State) :
  existsb (String.eqb u) (writers s) = true ->
  fsEvent hasha (Finish u) s
  = set_writers (closeWriter u (writers s)) (snd (onFinish hasha u s)).
Proof.
  intros Hopen. unfold fsEvent, onFinish. js_unfold. simpl eventUrl.
  rewrite Hopen. simpl negb. cbv iota.
  destruct (rename (getCachedPathTemp hasha u) (getCachedPath hasha u s)
              (fs s)); reflexivity.
Qed.

(** C4.  A rename failure of the cache-write path is not swallowed.
    [play] is called on the uncached A and again before the download
    has ended: both calls succeed and each opens a cache writer on the
    one temp path of A.  When the first writer finishes, its listener
    renames the temp file and A is cached.  When the second writer
    finishes, its listener finds the temp file gone: [fs.rename] fails
    and the listener, which has no handler around it, rejects with that
    error instead of returning. *)
Theorem finish_listener_rejects :
  let s1 := snd (play Sample.hasha Sample.getInfo [] Sample.joined) in
  let s2 := snd (play Sample.hasha Sample.getInfo [] s1) in
  let s3 := fsEvent Sample.hasha (Finish "a") s2 in
  fst (play Sample.hasha Sample.getInfo [] Sample.joined) = Ok tt
  /\ fst (play Sample.hasha Sample.getInfo [] s1) = Ok tt
  /\ writers s2 = ["a"; "a"]
  /\ fst (onFinish Sample.hasha "a" s2) = Ok tt
  /\ s3 = set_writers ["a"] (snd (onFinish Sample.hasha "a" s2))
  /\ isCached Sample.hasha "a" s3 = true
  /\ writers s3 = ["a"]
  /\ onFinish Sample.hasha "a" s3 = (Throw RenameError, s3)
  /\ fst (onFinish Sample.hasha "a" s3) <> Ok tt.
Proof.
  cbv zeta.
  split; [reflexivity|]. split; [reflexivity|]. split; [reflexivity|].
  split; [reflexivity|].
  split; [now apply fsEvent_finish_listener|].
  split; [reflexivity|]. split; [reflexivity|].
  assert (Hgone : getCachedPathTemp Sample.hasha "a"
                  ∉ fs (fsEvent Sample.hasha (Finish "a")
                          (snd (play Sample.hasha Sample.getInfo []
                                  (snd (play Sample.hasha Sample.getInfo []
                                          Sample.joined)))))).
  { apply (bool_decide_eq_false _). reflexivity. }
  rewrite (onFinish_rejects _ _ _ Hgone).
  split; [reflexivity | discriminate].
Qed.

(* ===================================================================== *)
(** * The methods case by case                                            *)
(* ===================================================================== *)

Section Shapes.

Variable hasha : string -> string.
Variable getInfo : string -> option videoInfo.



(** [getStream] changes the state only when it returns a stream. *)
Lemma getStream_failure_state (u : string) (s : State) :
  (forall input, fst (getStream hasha getInfo u s) <> Ok input) ->
  snd (getStream hasha getInfo u s) = s.
Proof.
  unfold getStream. destruct (isCached hasha u s); [reflexivity|].
  destruct (getInfo u) as [info|]; [|reflexivity].
  destruct (List.find GetStream.filter (formats info)) as [format|].
  - intros Hno. exfalso. eapply Hno. reflexivity.
  - destruct (GetStream.nextBestFormat (formats info)) as [e|[format|]];
      [reflexivity | | reflexivity].
    intros Hno. exfalso. eapply Hno. reflexivity.
Qed.

Lemma seek_cases (sched : list (list FsEvent)) (p : Z) (s : State) :
  match seek hasha sched p s with
  | (Ok _, s') =>
      exists vc song,
        voiceConnection s = Some vc
        /\ getCurrentSong s = Some song
        /\ fst (waitForCache hasha (url song) 50 500 sched s) = Ok tt
        /\ s' = sought hasha song p
                  (snd (waitForCache hasha (url song) 50 500 sched s))
  | (_, s') => session s' = session s
  end.
Proof.
  unfold seek. js_unfold.
  destruct (voiceConnection s) as [vc|]; [|reflexivity].
  destruct (getCurrentSong s) as [song|]; [|reflexivity].
  pose proof (waitForCache_session hasha (url song) 50 500 sched s) as Hsess.
  destruct (waitForCache hasha (url song) 50 500 sched s) as [[[]|e|] s1]
    eqn:Hw; [|exact Hsess|exact Hsess].
  exists vc, song. rewrite Hw. split; [reflexivity|]. split; [reflexivity|].
  split; reflexivity.
Qed.

Lemma play_paused_cases (sched : list (list FsEvent)) (s : State) :
  status s = PAUSED ->
  voiceConnection s <> None ->
  match dispatcher s with
  | Some d =>
      play hasha getInfo sched s
      = (Ok tt,
         set_status PLAYING (set_dispatcher (Some (dispatcher_resume d)) s))
  | None =>
      play hasha getInfo sched s = seek hasha sched (positionInSeconds s) s
  end.
Proof.
  intros Hst Hconn. unfold play. js_unfold.
  destruct (voiceConnection s) as [vc|]; [|congruence].
  rewrite Hst. destruct (dispatcher s) as [d|]; reflexivity.
Qed.

Lemma play_fresh_cases (sched : list (list FsEvent)) (s : State) :
  status s <> PAUSED ->
  match play hasha getInfo sched s with
  | (Ok _, s') =>
      exists song,
        voiceConnection s <> None
        /\ getCurrentSong s = Some song
        /\ ((isCached hasha (url song) s = true
             /\ s' = started (FromPath (getCachedPath hasha (url song) s))
                             None s)
            \/ (isCached hasha (url song) s = false
                /\ exists input s1,
                     getStream hasha getInfo (url song) s = (Ok input, s1)
                     /\ s' = started input (Some "webm/opus") s1))
  | (_, s') => s' = s
  end.
Proof.
  intros Hst. unfold play. js_unfold.
  destruct (voiceConnection s) as [vc|] eqn:Hvc; [|reflexivity].
  destruct (status s); [|congruence|].
  all: destruct (getCurrentSong s) as [song|]; [|reflexivity].
  all: destruct (isCached hasha (url song) s) eqn:Hhit;
    [ exists song; split; [discriminate|]; split; [reflexivity|];
      left; split; [exact Hhit | reflexivity] |].
  all: pose proof (getStream_failure_state (url song) s) as Hfail.
  all: destruct (getStream hasha getInfo (url song) s) as [[input|e|] s1]
         eqn:Hg; simpl in Hfail;
    [ exists song; split; [discriminate|]; split; [reflexivity|];
      right; split; [exact Hhit|];
      exists input, s1; split; [exact Hg | reflexivity]
    | apply Hfail; discriminate
    | apply Hfail; discriminate ].
Qed.

End Shapes.

(* ===================================================================== *)
(** * What an operation can do to the status and to the tracker           *)
(* ===================================================================== *)

Lemma session_trackerView (s s' : State) :
  session s' = session s -> trackerView s' = trackerView s.
Proof.
  unfold session, trackerView. intros [= -> _ _ _ -> _ _ -> ->]. reflexivity.
Qed.

Lemma attachListeners_trackerView (s : State) :
  trackerView (attachListeners s) = trackerView s.
Proof.
  unfold attachListeners. destruct (voiceConnection s); [|reflexivity].
  simpl. destruct (dispatcher s); reflexivity.
Qed.

Lemma startTrackingPosition_trackerView (i : option Z) (x s : State) :
  trackerView x = trackerView s ->
  trackerView (set_status PLAYING (startTrackingPosition i x))
  = trackerView (set_status PLAYING (startTrackingPosition i s)).
Proof.
  unfold trackerView. intros [= Hst Ht Hi Hn].
  assert (Hgo : forall y z : State,
             timers y = timers z ->
             playPositionInterval y = playPositionInterval z ->
             nextTimer y = nextTimer z ->
             let y' := match playPositionInterval y with
                       | Some h => clearInterval h y | None => y end in
             let z' := match playPositionInterval z with
                       | Some h => clearInterval h z | None => z end in
             (PLAYING, {[nextTimer y']} ∪ timers y', Some (nextTimer y'),
              S (nextTimer y'))
             = (PLAYING, {[nextTimer z']} ∪ timers z', Some (nextTimer z'),
                S (nextTimer z'))).
  { intros y z Hyt Hyi Hyn. rewrite Hyi.
    destruct (playPositionInterval z); simpl; now rewrite Hyt, Hyn. }
  unfold startTrackingPosition, setInterval.
  destruct i as [p|]; simpl.
  - destruct (negb (p =? 0)%Z); apply Hgo; assumption.
  - apply Hgo; assumption.
Qed.

Lemma pause_runs (s : State) :
  pause s = match status s with
            | PLAYING => (Ok tt, paused_from s)
            | _ => (Throw NotPlayingError, s)
            end.
Proof.
  unfold pause, paused_from. js_unfold.
  destruct (status s); reflexivity.
Qed.

Lemma paused_from_trackerView (s : State) :
  trackerView (paused_from s)
  = trackerView (stopTrackingPosition (set_status PAUSED s)).
Proof.
  unfold paused_from, stopTrackingPosition.
  destruct (dispatcher s); simpl; destruct (playPositionInterval s);
    reflexivity.
Qed.

Section Steps.

Variable hasha : string -> string.
Variable getInfo : string -> option videoInfo.

Lemma seek_change (sched : list (list FsEvent)) (p : Z) (s : State) :
  TrackerChange s (snd (seek hasha sched p s)).
Proof.
  pose proof (seek_cases hasha sched p s) as Hcases.
  destruct (seek hasha sched p s) as [[[]|e|] s']; simpl.
  - destruct Hcases as (vc & song & _ & _ & _ & ->).
    apply Restarted with (i := Some p). unfold sought.
    apply startTrackingPosition_trackerView.
    rewrite attachListeners_trackerView.
    change (trackerView (set_dispatcher ?v ?x)) with (trackerView x).
    apply session_trackerView. apply waitForCache_session.
  - apply Untouched. now apply session_trackerView.
  - apply Untouched. now apply session_trackerView.
Qed.

Lemma started_trackerView (input : PlayInput) (typeOpt : option string)
      (s1 s : State) :
  trackerView s1 = trackerView s ->
  trackerView (started input typeOpt s1)
  = trackerView (set_status PLAYING (startTrackingPosition None s)).
Proof.
  intros Hview.
  rewrite <- (startTrackingPosition_trackerView None
                (attachListeners
                   (set_dispatcher (Some (vc_play input None typeOpt)) s1)) s).
  - unfold started, startTrackingPosition, setInterval. simpl.
    repeat match goal with
           | |- context [match ?x with _ => _ end] => destruct x
           end; reflexivity.
  - rewrite attachListeners_trackerView. exact Hview.
Qed.

Lemma play_change (sched : list (list FsEvent)) (s : State) :
  TrackerChange s (snd (play hasha getInfo sched s)).
Proof.
  destruct (status s) eqn:Hst.
  1, 3: pose proof (play_fresh_cases hasha getInfo sched s) as Hcases;
    destruct (play hasha getInfo sched s) as [[[]|e|] s']; simpl;
    [ destruct Hcases as (song & _ & _ & [[_ ->] | [_ (input & s1 & Hg & ->)]]);
        [congruence | | ]
    | apply Untouched; rewrite Hcases by congruence; reflexivity
    | apply Untouched; rewrite Hcases by congruence; reflexivity ].
  1, 3: apply Restarted with (i := None); now apply started_trackerView.
  1, 2: apply Restarted with (i := None); apply started_trackerView;
    apply session_trackerView;
    destruct (getStream_opens_writer hasha getInfo (url song) s) as [Hs | Hs];
    rewrite Hg in Hs; simpl in Hs; subst s1; reflexivity.
  destruct (voiceConnection s) as [vc|] eqn:Hvc.
  - pose proof (play_paused_cases hasha getInfo sched s Hst) as Hcases.
    rewrite Hvc in Hcases. specialize (Hcases ltac:(discriminate)).
    destruct (dispatcher s) as [d|].
    + rewrite Hcases. simpl. apply Resumed; [assumption | reflexivity].
    + rewrite Hcases. apply seek_change.
  - rewrite play_not_connected by assumption. now apply Untouched.
Qed.

Lemma pause_change (s : State) : TrackerChange s (snd (pause s)).
Proof.
  rewrite pause_runs. destruct (status s) eqn:Hst; simpl.
  - apply Halted; [assumption | apply paused_from_trackerView].
  - now apply Untouched.
  - now apply Untouched.
Qed.

Lemma step_change (o : Op) (s : State) :
  TrackerChange s (step hasha getInfo o s).
Proof.
  destruct o as [| |sched|sched p|sched d| |sched b| |h|e]; simpl.
  - now apply Untouched.
  - unfold disconnect. js_unfold.
    destruct (voiceConnection s) as [vc|]; [|now apply Untouched].
    destruct (status s) eqn:Hst; simpl.
    + rewrite pause_runs, Hst. simpl. apply Halted; [assumption|].
      rewrite <- paused_from_trackerView. reflexivity.
    + now apply Untouched.
    + now apply Untouched.
  - apply play_change.
  - apply seek_change.
  - apply seek_change.
  - apply pause_change.
  - destruct b;
      [unfold onSpeaking; js_unfold; destruct (status s); now apply Untouched |].
    destruct (status s) eqn:Hst;
      [| unfold onSpeaking; js_unfold; rewrite Hst; now apply Untouched
       | unfold onSpeaking; js_unfold; rewrite Hst; now apply Untouched].
    destruct (queue s) as [|song rest] eqn:Hq.
    + rewrite onSpeaking_empty_queue by assumption. now apply Untouched.
    + rewrite (onSpeaking_advances hasha getInfo sched s song rest Hst Hq).
      destruct (play_change sched (set_queue rest s)) as [H|Hp H|Hp H|i H].
      * apply Untouched. exact H.
      * simpl in Hp. congruence.
      * apply Halted; [assumption|]. rewrite H.
        unfold stopTrackingPosition. simpl.
        destruct (playPositionInterval s); reflexivity.
      * apply Restarted with (i := i). rewrite H.
        now apply startTrackingPosition_trackerView.
  - unfold onDisconnect. js_unfold.
    destruct (status s) eqn:Hst; simpl.
    + rewrite pause_runs, Hst. simpl. apply Halted; [assumption|].
      rewrite <- paused_from_trackerView. reflexivity.
    + now apply Untouched.
    + now apply Untouched.
  - apply Untouched. unfold positionTick.
    destruct (bool_decide (h ∈ timers s)); reflexivity.
  - apply Untouched. apply session_trackerView. apply fsEvent_session.
Qed.

End Steps.

(* ===================================================================== *)
(** * Invariants of the player                                            *)
(* ===================================================================== *)

Lemma trackerView_status (s s' : State) :
  trackerView s' = trackerView s -> status s' = status s.
Proof. unfold trackerView. now intros [= -> _ _ _]. Qed.

Lemma trackerView_singleTimer (s s' : State) :
  trackerView s' = trackerView s -> singleTimer s -> singleTimer s'.
Proof.
  unfold trackerView, singleTimer. intros [= _ -> -> _]. trivial.
Qed.

Lemma stopTrackingPosition_singleTimer (s : State) :
  singleTimer s -> singleTimer (stopTrackingPosition s).
Proof.
  unfold singleTimer, stopTrackingPosition. intros Hone h.
  destruct (playPositionInterval s) as [h0|] eqn:Hh; simpl.
  - rewrite Hh. intros Hin. apply elem_of_difference in Hin as [Hin Hnot].
    specialize (Hone h Hin). injection Hone as ->.
    exfalso. apply Hnot. now apply elem_of_singleton.
  - intros Hin. specialize (Hone h Hin). congruence.
Qed.

Lemma startTrackingPosition_singleTimer (i : option Z) (s : State) :
  singleTimer s -> singleTimer (startTrackingPosition i s).
Proof.
  intros Hone.
  assert (Hgo : forall y : State,
             singleTimer y ->
             forall h,
               h ∈ {[nextTimer
                       match playPositionInterval y with
                       | Some h0 => clearInterval h0 y | None => y end]}
                   ∪ timers match playPositionInterval y with
                            | Some h0 => clearInterval h0 y | None => y end ->
               Some (nextTimer
                       match playPositionInterval y with
                       | Some h0 => clearInterval h0 y | None => y end)
               = Some h).
  { intros y Hy h Hin. apply elem_of_union in Hin as [Hin | Hin].
    - apply elem_of_singleton in Hin. now subst h.
    - exfalso. pose proof (stopTrackingPosition_singleTimer y Hy h) as Hstop.
      unfold stopTrackingPosition in Hstop.
      destruct (playPositionInterval y) as [h0|] eqn:Hh.
      + specialize (Hstop Hin). simpl in Hstop. rewrite Hh in Hstop.
        injection Hstop as <-. simpl in Hin.
        apply elem_of_difference in Hin as [_ Hnot].
        apply Hnot. now apply elem_of_singleton.
      + specialize (Hy h Hin). congruence. }
  unfold singleTimer, startTrackingPosition, setInterval.
  destruct i as [p|]; simpl.
  - destruct (negb (p =? 0)%Z); apply Hgo; exact Hone.
  - apply Hgo; exact Hone.
Qed.

Lemma TrackerChange_singleTimer (s s' : State) :
  TrackerChange s s' -> singleTimer s -> singleTimer s'.
Proof.
  intros [H | _ H | _ H | i H] Hone.
  - now apply (trackerView_singleTimer s).
  - apply (trackerView_singleTimer _ _ H).
    intros h Hin. exact (Hone h Hin).
  - apply (trackerView_singleTimer _ _ H).
    apply stopTrackingPosition_singleTimer.
    intros h Hin. exact (Hone h Hin).
  - apply (trackerView_singleTimer _ _ H).
    intros h Hin. exact (startTrackingPosition_singleTimer i s Hone h Hin).
Qed.

Lemma TrackerChange_status (s s' : State) :
  TrackerChange s s' ->
  status s' = status s \/ status s' = PLAYING \/ status s' = PAUSED.
Proof.
  intros [H | _ H | _ H | i H]; apply trackerView_status in H.
  - now left.
  - right. left. exact H.
  - right. right. rewrite H. unfold stopTrackingPosition. simpl.
    destruct (playPositionInterval s); reflexivity.
  - right. left. exact H.
Qed.

Lemma newPlayer_singleTimer (q : list QueuedSong) (dir : string)
      (files : gset string) :
  singleTimer (newPlayer q dir files).
Proof.
  intros h Hin. simpl in Hin. exfalso. revert Hin. apply not_elem_of_empty.
Qed.

Lemma singleTimer_second (s : State) :
  singleTimer s ->
  getPosition (second s) = (getPosition s + if tracking s then 1 else 0)%Z.
Proof.
  intros Hone. unfold second, tracking, getPosition.
  destruct (playPositionInterval s) as [h|] eqn:Hh.
  - destruct (bool_decide (h ∈ timers s)) eqn:Hin.
    + apply bool_decide_eq_true in Hin.
      assert (Heq : timers s = {[h]}).
      { apply set_eq. intros x. rewrite elem_of_singleton. split.
        - intros Hx. specialize (Hone x Hx). congruence.
        - now intros ->. }
      rewrite Heq, elements_singleton. simpl. unfold positionTick.
      rewrite Heq. rewrite bool_decide_eq_true_2 by now apply elem_of_singleton.
      reflexivity.
    + apply bool_decide_eq_false in Hin.
      assert (Heq : timers s = ∅).
      { apply set_eq. intros x. split.
        - intros Hx. exfalso. apply Hin.
          specialize (Hone x Hx). congruence.
        - intros Hx. exfalso. revert Hx. apply not_elem_of_empty. }
      rewrite Heq, elements_empty. simpl. lia.
  - assert (Heq : timers s = ∅).
    { apply set_eq. intros x. split.
      - intros Hx. specialize (Hone x Hx). congruence.
      - intros Hx. exfalso. revert Hx. apply not_elem_of_empty. }
    rewrite Heq, elements_empty. simpl. lia.
Qed.

Section Invariants.

Variable hasha : string -> string.
Variable getInfo : string -> option videoInfo.

Lemma steps_singleTimer (ops : list Op) :
  forall s : State, singleTimer s -> singleTimer (steps hasha getInfo ops s).
Proof.
  induction ops as [|o ops IH]; intros s Hone; [exact Hone|].
  unfold steps in *. simpl. apply IH.
  apply (TrackerChange_singleTimer s); [apply step_change | exact Hone].
Qed.

(** X4.  No operation ever assigns [DISCONNECTED]: once the status has
    left its initial value, no sequence of method calls, listener runs,
    timer firings and stream events brings it back, not even
    [disconnect()] or the loss of the connection. *)
Theorem status_never_returns_to_disconnected (ops : list Op) (s : State) :
  status s <> DISCONNECTED ->
  status (steps hasha getInfo ops s) <> DISCONNECTED.
Proof.
  revert s. induction ops as [|o ops IH]; intros s Hst; [exact Hst|].
  unfold steps in *. simpl. apply IH.
  destruct (TrackerChange_status s _ (step_change hasha getInfo o s))
    as [H | [H | H]]; rewrite H; [exact Hst | discriminate | discriminate].
Qed.

(** X5.  In every state a new player reaches, by any sequence of
    operations, at most one position interval is armed, the one whose
    handle the tracker holds: when every armed interval fires once, the
    position grows by exactly 1 if the tracker is running and stays as
    it is otherwise. *)
Theorem one_tick_per_second (ops : list Op) (q : list QueuedSong)
        (dir : string) (files : gset string) :
  let s := steps hasha getInfo ops (newPlayer q dir files) in
  singleTimer s
  /\ getPosition (second s)
     = (getPosition s + if tracking s then 1 else 0)%Z.
Proof.
  intros s.
  assert (Hone : singleTimer s)
    by (apply steps_singleTimer; apply newPlayer_singleTimer).
  split; [exact Hone | now apply singleTimer_second].
Qed.

End Invariants.

(* ===================================================================== *)
(** * Pause, resume, loss of the connection                               *)
(* ===================================================================== *)

Lemma paused_from_fields (s : State) :
  status (paused_from s) = PAUSED
  /\ voiceConnection (paused_from s) = voiceConnection s
  /\ dispatcher (paused_from s) = option_map dispatcher_pause (dispatcher s)
  /\ positionInSeconds (paused_from s) = positionInSeconds s
  /\ queue (paused_from s) = queue s
  /\ fs (paused_from s) = fs s
  /\ writers (paused_from s) = writers s
  /\ cacheDir (paused_from s) = cacheDir s.
Proof.
  unfold paused_from, stopTrackingPosition.
  destruct (dispatcher s) eqn:Hd; simpl;
    destruct (playPositionInterval s); simpl; rewrite ?Hd; repeat split.
Qed.

Section PauseResume.

Variable hasha : string -> string.
Variable getInfo : string -> option videoInfo.

(** X1.  [pause()] then [play()] on a playing player with a dispatcher:
    [play] returns, the same dispatcher is resumed (same input, same
    seek offset), the status is [PLAYING] again, position, queue, files
    and open cache writers are as before the pause, and no source is
    acquired.  The position interval that [pause] cleared is not armed
    again: after the resume the tracker is not running. *)
Theorem pause_then_play_resumes (sched : list (list FsEvent)) (s : State)
        (d : StreamDispatcher) :
  status s = PLAYING ->
  voiceConnection s <> None ->
  dispatcher s = Some d ->
  fst (pause s) = Ok tt
  /\ fst (play hasha getInfo sched (snd (pause s))) = Ok tt
  /\ (let s' := snd (play hasha getInfo sched (snd (pause s))) in
      status s' = PLAYING
      /\ dispatcher s' = Some (dispatcher_resume d)
      /\ getPosition s' = getPosition s
      /\ queue s' = queue s
      /\ fs s' = fs s
      /\ writers s' = writers s
      /\ tracking s' = false).
Proof.
  intros Hst Hconn Hd. rewrite pause_runs, Hst. simpl.
  destruct (paused_from_fields s)
    as (Hp1 & Hp2 & Hp3 & Hp4 & Hp5 & Hp6 & Hp7 & _).
  pose proof (play_paused_cases hasha getInfo sched (paused_from s) Hp1)
    as Hplay.
  rewrite Hp2 in Hplay. specialize (Hplay Hconn).
  rewrite Hp3, Hd in Hplay. simpl in Hplay. rewrite Hplay. simpl.
  split; [reflexivity|]. split; [reflexivity|].
  split; [reflexivity|]. split; [reflexivity|].
  split; [exact Hp4|]. split; [exact Hp5|]. split; [exact Hp6|].
  split; [exact Hp7|].
  change (tracking (paused_from s) = false).
  apply stopTrackingPosition_not_tracking.
Qed.

(** X2.  The ['disconnect'] listener of the connection, run while
    playing: it pauses (status [PAUSED], tracker stopped) and forgets
    the dispatcher.  A [play()] after that does not resume and does not
    look at the remote source: it is exactly [seek] at the position the
    tracker had reached. *)
Theorem play_after_connection_loss (sched : list (list FsEvent)) (s : State) :
  status s = PLAYING ->
  voiceConnection s <> None ->
  fst (onDisconnect s) = Ok tt
  /\ (let s1 := snd (onDisconnect s) in
      status s1 = PAUSED
      /\ dispatcher s1 = None
      /\ tracking s1 = false
      /\ getPosition s1 = getPosition s
      /\ play hasha getInfo sched s1 = seek hasha sched (getPosition s) s1).
Proof.
  intros Hst Hconn.
  assert (Hrun : onDisconnect s = (Ok tt, set_dispatcher None (paused_from s))).
  { unfold onDisconnect. js_unfold. rewrite Hst, pause_runs, Hst. reflexivity. }
  rewrite Hrun. simpl.
  destruct (paused_from_fields s)
    as (Hp1 & Hp2 & Hp3 & Hp4 & Hp5 & Hp6 & Hp7 & _).
  split; [reflexivity|]. split; [exact Hp1|]. split; [reflexivity|].
  split; [apply stopTrackingPosition_not_tracking|].
  split; [exact Hp4|].
  pose proof (play_paused_cases hasha getInfo sched
                (set_dispatcher None (paused_from s)) Hp1) as Hplay.
  simpl in Hplay. rewrite Hp2 in Hplay. specialize (Hplay Hconn).
  rewrite Hplay. unfold getPosition. now rewrite Hp4.
Qed.

(** X3.  [disconnect()] never throws.  Without a connection it does
    nothing.  With one, it pauses a playing player (status [PAUSED],
    tracker stopped), leaves any other status as it is, and calls
    [disconnect] on the connection; it neither clears the
    [voiceConnection] field nor sets the status to [DISCONNECTED]. *)
Theorem disconnect_keeps_connection_field (s : State) :
  fst (disconnect s) = Ok tt
  /\ (voiceConnection s = None -> snd (disconnect s) = s)
  /\ (forall vc, voiceConnection s = Some vc ->
        let s' := snd (disconnect s) in
        voiceConnection s' = Some (vc_disconnect vc)
        /\ status s' = match status s with PLAYING => PAUSED | st => st end
        /\ (status s = PLAYING -> tracking s' = false)
        /\ getPosition s' = getPosition s
        /\ queue s' = queue s).
Proof.
  unfold disconnect. js_unfold.
  destruct (voiceConnection s) as [vc|] eqn:Hvc.
  - assert (Hrun :
      (let (r, s1) :=
         match status s with
         | PLAYING => pause
         | _ => fun s0 => (Ok tt, s0)
         end s in
       match r with
       | Ok _ =>
           (Ok tt,
            set_voiceConnection (option_map vc_disconnect (voiceConnection s1))
                                s1)
       | Throw e => (Throw e, s1)
       | Pending => (Pending, s1)
       end)
      = (Ok tt,
         set_voiceConnection (Some (vc_disconnect vc))
           match status s with PLAYING => paused_from s | _ => s end)).
    { destruct (status s) eqn:Hst.
      - rewrite pause_runs, Hst.
        destruct (paused_from_fields s) as (_ & Hp2 & _).
        now rewrite Hp2, Hvc.
      - now rewrite Hvc.
      - now rewrite Hvc. }
    rewrite Hrun. simpl. split; [reflexivity|]. split; [discriminate|].
    intros vc' [= <-].
    destruct (paused_from_fields s) as (Hp1 & _ & _ & Hp4 & Hp5 & _).
    split; [reflexivity|].
    destruct (status s) eqn:Hst.
    + split; [exact Hp1|]. split.
      * intros _. change (tracking (paused_from s) = false).
        apply stopTrackingPosition_not_tracking.
      * split; [exact Hp4 | exact Hp5].
    + split; [exact Hst|]. split; [discriminate|]. now split.
    + split; [exact Hst|]. split; [discriminate|]. now split.
  - split; [reflexivity|]. split; [reflexivity|]. intros vc [=].
Qed.

End PauseResume.

(* ===================================================================== *)
(** * What [seek] and [play] leave, and how they fail                     *)
(* ===================================================================== *)

Lemma started_fields (input : PlayInput) (typeOpt : option string)
      (s1 : State) (vc : VoiceConnection) :
  voiceConnection s1 = Some vc ->
  status (started input typeOpt s1) = PLAYING
  /\ voiceConnection (started input typeOpt s1) = Some (vc_on_disconnect vc)
  /\ dispatcher (started input typeOpt s1)
     = Some (dispatcher_on_speaking (vc_play input None typeOpt))
  /\ positionInSeconds (started input typeOpt s1) = positionInSeconds s1
  /\ queue (started input typeOpt s1) = queue s1
  /\ fs (started input typeOpt s1) = fs s1
  /\ writers (started input typeOpt s1) = writers s1
  /\ cacheDir (started input typeOpt s1) = cacheDir s1.
Proof.
  intros Hvc. unfold started, attachListeners, startTrackingPosition,
    setInterval. simpl. rewrite Hvc. simpl.
  destruct (playPositionInterval s1); simpl; repeat split.
Qed.

Lemma sought_fields (hasha : string -> string) (song : QueuedSong) (p : Z)
      (s1 : State) (vc : VoiceConnection) :
  voiceConnection s1 = Some vc ->
  status (sought hasha song p s1) = PLAYING
  /\ voiceConnection (sought hasha song p s1) = Some (vc_on_disconnect vc)
  /\ dispatcher (sought hasha song p s1)
     = Some (dispatcher_on_speaking
               (vc_play (FromPath (getCachedPath hasha (url song) s1))
                        (Some p) None))
  /\ positionInSeconds (sought hasha song p s1)
     = (if (p =? 0)%Z then positionInSeconds s1 else p)
  /\ queue (sought hasha song p s1) = queue s1
  /\ fs (sought hasha song p s1) = fs s1
  /\ writers (sought hasha song p s1) = writers s1
  /\ cacheDir (sought hasha song p s1) = cacheDir s1.
Proof.
  intros Hvc. unfold sought, attachListeners, startTrackingPosition,
    setInterval. simpl. rewrite Hvc. simpl.
  destruct (p =? 0)%Z; simpl; destruct (playPositionInterval s1); simpl;
    repeat split.
Qed.

Lemma session_fields (s s' : State) :
  session s' = session s ->
  voiceConnection s' = voiceConnection s
  /\ positionInSeconds s' = positionInSeconds s
  /\ queue s' = queue s
  /\ cacheDir s' = cacheDir s.
Proof.
  unfold session. intros [= _ -> -> _ _ -> -> _ _]. repeat split.
Qed.


Section Outcomes.

Variable hasha : string -> string.
Variable getInfo : string -> option videoInfo.

Lemma cachedCheck_throw (u : string) (maxRetries : Z)
      (sched : list (list FsEvent)) (e : Error) :
  forall (n : Z) (fired : nat) (s : State),
    (n <= maxRetries)%Z ->
    outcome (cachedCheck hasha u maxRetries sched n fired s) = Throw e ->
    e = CacheTimeoutError /\ (maxRetries - n < Z.of_nat (length sched))%Z.
Proof.
  induction sched as [|events sched IH]; intros n fired s Hn; simpl;
    [discriminate|].
  destruct (isCached hasha u (fsEvents hasha events s)); [discriminate|].
  destruct (Z.gtb_spec (n + 1) maxRetries) as [Hover | Hroom]; simpl.
  - intros [= <-]. split; [reflexivity | lia].
  - intros Hthrow. destruct (IH _ _ _ Hroom Hthrow) as [He Hlen].
    split; [exact He | lia].
Qed.

Lemma cachedCheck_throw_missing (u : string) (maxRetries : Z)
      (sched : list (list FsEvent)) (e : Error) :
  forall (n : Z) (fired : nat) (s : State),
    outcome (cachedCheck hasha u maxRetries sched n fired s) = Throw e ->
    isCached hasha u (after (cachedCheck hasha u maxRetries sched n fired s))
    = false.
Proof.
  induction sched as [|events sched IH]; intros n fired s; simpl;
    [discriminate|].
  destruct (isCached hasha u (fsEvents hasha events s)) eqn:Hhit;
    [discriminate|].
  destruct (n + 1 >? maxRetries)%Z; simpl; [intros _; exact Hhit|].
  apply IH.
Qed.

Lemma waitForCache_throw_missing (u : string) (maxRetries retryDelay : Z)
      (sched : list (list FsEvent)) (s : State) (e : Error) :
  fst (waitForCache hasha u maxRetries retryDelay sched s) = Throw e ->
  isCached hasha u (snd (waitForCache hasha u maxRetries retryDelay sched s))
  = false.
Proof.
  unfold waitForCache, waitForCache_run. simpl.
  destruct (isCached hasha u s); [discriminate|].
  apply cachedCheck_throw_missing.
Qed.

Lemma waitForCache_throw (u : string) (sched : list (list FsEvent))
      (s : State) (e : Error) :
  fst (waitForCache hasha u 50 500 sched s) = Throw e ->
  e = CacheTimeoutError
  /\ isCached hasha u s = false
  /\ (50 < length sched)%nat.
Proof.
  unfold waitForCache, waitForCache_run. simpl.
  destruct (isCached hasha u s); [discriminate|].
  intros Hthrow.
  destruct (cachedCheck_throw u 50 sched e 0%Z 0%nat s ltac:(lia) Hthrow)
    as [He Hlen].
  split; [exact He|]. split; [reflexivity | lia].
Qed.

Lemma getStream_not_pending (u : string) (s : State) :
  fst (getStream hasha getInfo u s) <> Pending.
Proof.
  unfold getStream. destruct (isCached hasha u s); [discriminate|].
  destruct (getInfo u) as [info|]; [|discriminate].
  destruct (List.find GetStream.filter (formats info)); [discriminate|].
  destruct (GetStream.nextBestFormat (formats info)) as [e|[format|]];
    discriminate.
Qed.


(** X6.  [seek] can fail in three ways only: with the not-connected
    error exactly when there is no connection, and with the
    no-current-song error when connected with an empty queue, both
    before anything is awaited, so that the state is the one given; or
    with the timeout error, when the head of the queue was not cached at
    the call, the wait's interval fired more than 50 times, and the head
    is still not cached when the error is thrown. *)
Theorem seek_fails_in_three_ways (sched : list (list FsEvent)) (p : Z)
        (s : State) (e : Error) :
  fst (seek hasha sched p s) = Throw e ->
  (e = NotConnectedError /\ voiceConnection s = None
   /\ snd (seek hasha sched p s) = s)
  \/ (e = NoCurrentSongError /\ voiceConnection s <> None
      /\ queue s = [] /\ snd (seek hasha sched p s) = s)
  \/ (e = CacheTimeoutError /\ voiceConnection s <> None
      /\ (50 < length sched)%nat
      /\ exists song,
           getCurrentSong s = Some song
           /\ isCached hasha (url song) s = false
           /\ isCached hasha (url song) (snd (seek hasha sched p s))
              = false).
Proof.
  unfold seek. js_unfold.
  destruct (voiceConnection s) as [vc|] eqn:Hvc.
  - unfold getCurrentSong, Queue.get.
    destruct (queue s) as [|song rest] eqn:Hq.
    + intros [= <-]. right. left. repeat split. discriminate.
    + pose proof (waitForCache_throw (url song) sched s) as Hwait.
      pose proof (waitForCache_throw_missing (url song) 50 500 sched s)
        as Hstill.
      destruct (waitForCache hasha (url song) 50 500 sched s)
        as [[[]|e'|] s1]; simpl in *; [discriminate| |discriminate].
      intros [= <-]. destruct (Hwait e' eq_refl) as (-> & Hmiss & Hlen).
      right. right. split; [reflexivity|]. split; [discriminate|].
      split; [exact Hlen|]. exists song.
      split; [reflexivity|]. split; [exact Hmiss|].
      exact (Hstill _ eq_refl).
  - intros [= <-]. left. now repeat split.
Qed.


(** X8.  [forwardSeek(d)] is [seek] at the tracked position plus [d],
    with no clamping: when it succeeds, the offset given to the
    connection is that sum, negative included, and unless the sum is 0
    the tracked position becomes that sum. *)
Theorem forwardSeek_does_not_clamp (sched : list (list FsEvent)) (d : Z)
        (s s' : State) :
  forwardSeek hasha sched d s = (Ok tt, s') ->
  option_map d_seek (dispatcher s') = Some (Some (getPosition s + d)%Z)
  /\ ((getPosition s + d)%Z <> 0%Z -> getPosition s' = (getPosition s + d)%Z).
Proof.
  unfold forwardSeek, getPosition. intros Hseek.
  pose proof (seek_cases hasha sched (positionInSeconds s + d)%Z s) as Hcases.
  rewrite Hseek in Hcases.
  destruct Hcases as (vc & song & Hvc & Hsong & Hok & ->).
  pose proof (waitForCache_session hasha (url song) 50 500 sched s) as Hsess.
  set (s1 := snd (waitForCache hasha (url song) 50 500 sched s)) in *.
  destruct (session_fields _ _ Hsess) as (Hs1 & Hs2 & _).
  assert (Hvc1 : voiceConnection s1 = Some vc) by now rewrite Hs1.
  destruct (sought_fields hasha song (positionInSeconds s + d)%Z s1 vc Hvc1)
    as (_ & _ & Hf3 & Hf4 & _).
  split; [now rewrite Hf3|].
  intros Hp. rewrite Hf4.
  destruct (Z.eqb_spec (positionInSeconds s + d) 0);
    [contradiction | reflexivity].
Qed.


End Outcomes.

(* ===================================================================== *)
(** * Starting a source                                                   *)
(* ===================================================================== *)

(** X10.  When the head of the queue is in the cache, a fresh [play()]
    is local: it succeeds whatever the remote source would answer, the
    dispatcher plays the cache file from its beginning, and neither the
    files nor the open cache writers change. *)
Theorem play_cached_head_is_local
        (hasha : string -> string)
        (getInfo getInfo' : string -> option videoInfo)
        (sched : list (list FsEvent)) (s : State) (song : QueuedSong)
        (vc : VoiceConnection) :
  status s <> PAUSED ->
  voiceConnection s = Some vc ->
  getCurrentSong s = Some song ->
  isCached hasha (url song) s = true ->
  play hasha getInfo sched s = play hasha getInfo' sched s
  /\ fst (play hasha getInfo sched s) = Ok tt
  /\ (let s' := snd (play hasha getInfo sched s) in
      dispatcher s'
      = Some (dispatcher_on_speaking
                (vc_play (FromPath (getCachedPath hasha (url song) s))
                         None None))
      /\ fs s' = fs s
      /\ writers s' = writers s
      /\ status s' = PLAYING).
Proof.
  intros Hst Hvc Hsong Hhit.
  assert (Hrun : forall info : string -> option videoInfo,
             play hasha info sched s
             = (Ok tt,
                started (FromPath (getCachedPath hasha (url song) s)) None s)).
  { intros info. unfold play. js_unfold. rewrite Hvc.
    destruct (status s); [|congruence|]; cbv beta; rewrite Hsong;
      cbv beta; rewrite Hhit; reflexivity. }
  rewrite (Hrun getInfo), (Hrun getInfo'). simpl.
  destruct (started_fields (FromPath (getCachedPath hasha (url song) s))
              None s vc Hvc) as (Hf1 & _ & Hf3 & _ & _ & Hf6 & Hf7 & _).
  repeat split; assumption.
Qed.

Section Starting.

Variable hasha : string -> string.
Variable getInfo : string -> option videoInfo.

(** X11.  When the head of the queue is not in the cache, a successful
    fresh [play()] hands the connection a capacitor stream declared as
    ['webm/opus'], with no seek offset; for content that is not live
    one more cache writer is open, for the url of the song, and for live
    content files and writers are untouched. *)
Theorem play_uncached_head_streams (sched : list (list FsEvent))
        (s s' : State) (song : QueuedSong) :
  status s <> PAUSED ->
  getCurrentSong s = Some song ->
  isCached hasha (url song) s = false ->
  play hasha getInfo sched s = (Ok tt, s') ->
  exists info r,
    getInfo (url song) = Some info
    /\ option_map d_input (dispatcher s')
       = Some (FromStream (capacitorReadStream r))
    /\ option_map d_type (dispatcher s') = Some (Some "webm/opus")
    /\ option_map d_seek (dispatcher s') = Some None
    /\ (isLiveContent info = false -> writers s' = url song :: writers s)
    /\ (isLiveContent info = true -> fs s' = fs s /\ writers s' = writers s).
Proof.
  intros Hst Hsong Hmiss Hplay.
  pose proof (play_fresh_cases hasha getInfo sched s Hst) as Hcases.
  rewrite Hplay in Hcases.
  destruct Hcases as (song' & Hconn & Hsong' & Hbranch).
  rewrite Hsong in Hsong'. injection Hsong' as <-.
  destruct Hbranch as [[Hhit _] | (_ & input & s1 & Hget & ->)];
    [congruence|].
  destruct (voiceConnection s) as [vc|] eqn:Hvc; [|congruence].
  assert (Hshape : exists info r,
             getInfo (url song) = Some info
             /\ input = FromStream (capacitorReadStream r)
             /\ s1 = if negb (isLiveContent info)
                     then createWriteStream hasha (url song) s else s).
  { revert Hget. unfold getStream. rewrite Hmiss.
    destruct (getInfo (url song)) as [info|]; [|discriminate].
    destruct (List.find GetStream.filter (formats info)) as [format|].
    - intros [= <- <-]. now exists info, (downloadFromInfo format).
    - destruct (GetStream.nextBestFormat (formats info)) as [e|[format|]];
        [discriminate| |discriminate].
      intros [= <- <-].
      now exists info, (ffmpegOpus (f_url format) GetStream.reconnectOptions). }
  destruct Hshape as (info & r & Hinfo & -> & ->).
  assert (Hvc1 : voiceConnection
                   (if negb (isLiveContent info)
                    then createWriteStream hasha (url song) s else s)
                 = Some vc)
    by (destruct (isLiveContent info); exact Hvc).
  destruct (started_fields (FromStream (capacitorReadStream r))
              (Some "webm/opus") _ vc Hvc1)
    as (_ & _ & Hf3 & _ & _ & Hf6 & Hf7 & _).
  exists info, r. split; [exact Hinfo|]. rewrite Hf3, Hf6, Hf7. simpl.
  split; [reflexivity|]. split; [reflexivity|]. split; [reflexivity|].
  split; intros Hlive; rewrite Hlive; simpl.
  - reflexivity.
  - now split.
Qed.

(** X12.  The first [play()] of a new player, once connected, starts at
    position 0 with the tracker running: the position a fresh [play]
    reports is the one it found, and a new player has 0. *)
Theorem first_play_starts_at_zero (sched : list (list FsEvent))
        (q : list QueuedSong) (dir : string) (files : gset string)
        (s' : State) :
  play hasha getInfo sched (snd (connect (newPlayer q dir files)))
  = (Ok tt, s') ->
  getPosition s' = 0%Z
  /\ status s' = PLAYING
  /\ tracking s' = true
  /\ option_map d_seek (dispatcher s') = Some None
  /\ getPosition (second s') = 1%Z.
Proof.
  intros Hplay.
  set (s0 := snd (connect (newPlayer q dir files))) in *.
  assert (Hst : status s0 <> PAUSED) by discriminate.
  destruct (play_fresh_ok hasha getInfo sched s0 s' Hst Hplay)
    as (Hstatus & Htrack & Hpos).
  pose proof (play_fresh_cases hasha getInfo sched s0 Hst) as Hcases.
  rewrite Hplay in Hcases.
  destruct Hcases as (song & _ & _ & Hbranch).
  assert (Hseek : option_map d_seek (dispatcher s') = Some None).
  { destruct Hbranch as [[_ ->] | (_ & input & s1 & Hget & ->)].
    - now destruct (started_fields
                      (FromPath (getCachedPath hasha (url song) s0)) None s0
                      _ eq_refl) as (_ & _ & -> & _).
    - assert (Hvc1 : voiceConnection s1
                     = Some {| vc_joined := true;
                               vc_disconnectListeners := 0 |}).
      { destruct (getStream_opens_writer hasha getInfo (url song) s0)
          as [Hs | Hs]; rewrite Hget in Hs; simpl in Hs; now subst s1. }
      now destruct (started_fields input (Some "webm/opus") s1 _ Hvc1)
        as (_ & _ & -> & _). }
  split; [exact Hpos|]. split; [exact Hstatus|]. split; [exact Htrack|].
  split; [exact Hseek|].
  assert (Hone : singleTimer s').
  { pose proof (steps_singleTimer hasha getInfo [OpConnect; OpPlay sched]
                  (newPlayer q dir files) (newPlayer_singleTimer q dir files))
      as Hsteps.
    change (singleTimer (snd (play hasha getInfo sched s0))) in Hsteps.
    now rewrite Hplay in Hsteps. }
  rewrite (singleTimer_second s' Hone), Htrack, Hpos. reflexivity.
Qed.

End Starting.

(* ===================================================================== *)
(** * The end-of-track listener and the waits                             *)
(* ===================================================================== *)

Section Listening.

Variable hasha : string -> string.
Variable getInfo : string -> option videoInfo.

(** X13.  The ['speaking'] listener acts only on silence while the
    status is [PLAYING]: on every other event it returns with the state
    untouched.  In particular the silence that follows a [pause()] does
    not advance the queue, because [pause] has already set the status. *)
Theorem speaking_listener_idle (sched : list (list FsEvent))
        (isSpeaking : bool) (s : State) :
  (isSpeaking = true \/ status s <> PLAYING ->
   onSpeaking hasha getInfo sched isSpeaking s = (Ok tt, s))
  /\ (status s = PLAYING ->
      onSpeaking hasha getInfo sched false (snd (pause s))
      = (Ok tt, snd (pause s))).
Proof.
  assert (Hidle : forall b x,
             b = true \/ status x <> PLAYING ->
             onSpeaking hasha getInfo sched b x = (Ok tt, x)).
  { intros b x Hwhy. unfold onSpeaking. js_unfold.
    destruct b; [destruct (status x); reflexivity|].
    destruct Hwhy as [Hb | Hst]; [discriminate|].
    destruct (status x); [congruence | reflexivity | reflexivity]. }
  split; [apply Hidle|].
  intros Hst. apply Hidle. right.
  rewrite pause_runs, Hst. simpl.
  destruct (paused_from_fields s) as (-> & _). discriminate.
Qed.

(** X14.  [seek], and with it [forwardSeek] and a [play] that resumes
    without a dispatcher, wait for nothing but the cache: they are
    decided once the wait's interval has fired 51 times.  With a
    schedule longer than 50 firings none of them is still pending,
    whatever happens to the files. *)
Theorem settled_after_51_firings (sched : list (list FsEvent)) (s : State) :
  (50 < length sched)%nat ->
  (forall p, fst (seek hasha sched p s) <> Pending)
  /\ (forall d, fst (forwardSeek hasha sched d s) <> Pending)
  /\ (status s = PAUSED -> dispatcher s = None ->
      fst (play hasha getInfo sched s) <> Pending).
Proof.
  intros Hlen.
  assert (Hseek : forall p x, fst (seek hasha sched p x) <> Pending).
  { intros p x. unfold seek. js_unfold.
    destruct (voiceConnection x); [|discriminate].
    destruct (getCurrentSong x) as [song|]; [|discriminate].
    pose proof (waitForCache_settles hasha (url song) 500 sched x Hlen)
      as Hwait.
    destruct (waitForCache hasha (url song) 50 500 sched x)
      as [[[]|e|] s1]; simpl in *; [discriminate | discriminate | congruence]. }
  split; [intros p; apply Hseek|]. split.
  - intros d. unfold forwardSeek. js_unfold. apply Hseek.
  - intros Hst Hd. unfold play. js_unfold.
    destruct (voiceConnection s); [|discriminate].
    rewrite Hst, Hd. apply Hseek.
Qed.

End Listening.

Section WaitingMore.

Variable hasha : string -> string.

Lemma cachedCheck_first_hit (u : string) (maxRetries : Z)
      (events : list FsEvent) (post : list (list FsEvent))
      (pre : list (list FsEvent)) :
  forall (n : Z) (fired : nat) (s : State),
    (forall k, (1 <= k)%nat ->
               isCached hasha u (fsEvents hasha (concat (firstn k pre)) s)
               = false) ->
    isCached hasha u (fsEvents hasha (concat pre ++ events) s) = true ->
    (n + Z.of_nat (length pre) <= maxRetries)%Z ->
    let r := cachedCheck hasha u maxRetries (pre ++ events :: post) n fired s in
    outcome r = Ok tt
    /\ firings r = (fired + S (length pre))%nat
    /\ after r = fsEvents hasha (concat pre ++ events) s.
Proof.
  induction pre as [|batch pre IH]; intros n fired s Hmiss Hhit Hroom; simpl.
  - simpl in Hhit. rewrite Hhit. simpl. repeat split. lia.
  - assert (Hb : isCached hasha u (fsEvents hasha batch s) = false).
    { specialize (Hmiss 1%nat ltac:(lia)). simpl in Hmiss.
      now rewrite app_nil_r in Hmiss. }
    rewrite Hb.
    simpl in Hroom.
    destruct (Z.gtb_spec (n + 1) maxRetries) as [Hover | Hfits]; [lia|].
    specialize (IH (n + 1)%Z (S fired) (fsEvents hasha batch s)).
    simpl in IH. destruct IH as (Ho & Hf & Ha).
    + intros k Hk. specialize (Hmiss (S k) ltac:(lia)). simpl in Hmiss.
      now rewrite fsEvents_app in Hmiss.
    + simpl in Hhit. now rewrite <- app_assoc, fsEvents_app in Hhit.
    + lia.
    + split; [exact Ho|]. split; [lia|].
      rewrite Ha. simpl concat. rewrite <- app_assoc.
      symmetry. apply fsEvents_app.
Qed.

(** X15.  [waitForCache] resolves at the first check that finds the
    file: if the url is missing at the call and after each of the first
    [j] batches of stream events, and present after the next batch, with
    [j <= maxRetries], the promise resolves at firing [j + 1], and the
    rest of the schedule is not looked at.  The last chance is firing
    [maxRetries + 1]. *)
Theorem waitForCache_resolves_at_first_hit
        (u : string) (maxRetries : Z) (pre : list (list FsEvent))
        (events : list FsEvent) (post : list (list FsEvent)) (s : State) :
  neverCached hasha u pre s ->
  isCached hasha u (fsEvents hasha (concat pre ++ events) s) = true ->
  (Z.of_nat (length pre) <= maxRetries)%Z ->
  let r := waitForCache_run hasha u maxRetries (pre ++ events :: post) s in
  outcome r = Ok tt
  /\ firings r = S (length pre)
  /\ after r = fsEvents hasha (concat pre ++ events) s.
Proof.
  intros Hnever Hhit Hroom r. subst r. unfold waitForCache_run.
  rewrite (neverCached_now hasha u pre s Hnever).
  apply (cachedCheck_first_hit u maxRetries events post pre 0%Z 0%nat s);
    [intros k _; apply Hnever | exact Hhit | lia].
Qed.

Lemma cachedCheck_bounded (u : string) (maxRetries : Z)
      (sched : list (list FsEvent)) :
  forall (n : Z) (fired : nat) (s : State),
    let r := cachedCheck hasha u maxRetries sched n fired s in
    (Z.of_nat (firings r)
     <= Z.of_nat fired + Z.max 1 (maxRetries + 1 - n))%Z
    /\ (firings r <= fired + length sched)%nat
    /\ (outcome r = Pending -> firings r = (fired + length sched)%nat).
Proof.
  induction sched as [|events sched IH]; intros n fired s; simpl.
  - repeat split; lia.
  - destruct (isCached hasha u (fsEvents hasha events s)); simpl.
    + repeat split; try lia. discriminate.
    + destruct (Z.gtb_spec (n + 1) maxRetries) as [Hover | Hfits]; simpl.
      * repeat split; try lia. discriminate.
      * specialize (IH (n + 1)%Z (S fired) (fsEvents hasha events s)).
        simpl in IH. destruct IH as (Hb & Hl & Hp).
        split; [lia|]. split; [lia|]. intros Hpend. rewrite (Hp Hpend). lia.
Qed.

(** X16.  Whatever the files do and whatever [maxRetries] is (negative
    and zero included), [waitForCache] runs its check at most
    [max 1 (maxRetries + 1)] times on the interval; once the interval
    has fired that often the wait is decided; and when it rejects, it
    rejects with the timeout error, at check number
    [max 1 (maxRetries + 1)] exactly, the url still missing. *)
Lemma cachedCheck_settles_any (u : string) (maxRetries : Z)
      (sched : list (list FsEvent)) :
  forall (n : Z) (fired : nat) (s : State),
    (Z.max 1 (maxRetries + 1 - n) <= Z.of_nat (length sched))%Z ->
    outcome (cachedCheck hasha u maxRetries sched n fired s) <> Pending.
Proof.
  induction sched as [|events sched IH]; intros n fired s Hlen; simpl.
  - simpl in Hlen. lia.
  - destruct (isCached hasha u (fsEvents hasha events s)); [discriminate|].
    destruct (Z.gtb_spec (n + 1) maxRetries) as [Hover | Hroom];
      [discriminate|].
    apply IH. simpl length in Hlen. lia.
Qed.

Lemma cachedCheck_throw_at (u : string) (maxRetries : Z)
      (sched : list (list FsEvent)) (e : Error) :
  forall (n : Z) (fired : nat) (s : State),
    let r := cachedCheck hasha u maxRetries sched n fired s in
    outcome r = Throw e ->
    e = CacheTimeoutError
    /\ Z.of_nat (firings r)
       = (Z.of_nat fired + Z.max 1 (maxRetries + 1 - n))%Z
    /\ isCached hasha u (after r) = false.
Proof.
  induction sched as [|events sched IH]; intros n fired s; simpl;
    [discriminate|].
  destruct (isCached hasha u (fsEvents hasha events s)) eqn:Hhit;
    [discriminate|].
  destruct (Z.gtb_spec (n + 1) maxRetries) as [Hover | Hroom]; simpl.
  - intros [= <-]. split; [reflexivity|]. split; [lia | exact Hhit].
  - intros Hthrow.
    destruct (IH (n + 1)%Z (S fired) (fsEvents hasha events s) Hthrow)
      as (He & Hat & Hmiss).
    split; [exact He|]. split; [|exact Hmiss]. rewrite Hat. lia.
Qed.

Theorem waitForCache_bounded (u : string) (maxRetries : Z)
        (sched : list (list FsEvent)) (s : State) :
  let r := waitForCache_run hasha u maxRetries sched s in
  (Z.of_nat (firings r) <= Z.max 1 (maxRetries + 1))%Z
  /\ ((Z.max 1 (maxRetries + 1) <= Z.of_nat (length sched))%Z ->
      outcome r <> Pending)
  /\ (forall e : Error,
         outcome r = Throw e ->
         e = CacheTimeoutError
         /\ Z.of_nat (firings r) = Z.max 1 (maxRetries + 1)
         /\ isCached hasha u s = false
         /\ isCached hasha u (after r) = false).
Proof.
  intros r. subst r. unfold waitForCache_run.
  destruct (isCached hasha u s) eqn:Hhit; simpl.
  - split; [lia|]. split; [discriminate|]. discriminate.
  - destruct (cachedCheck_bounded u maxRetries sched 0%Z 0%nat s)
      as (Hb & _ & _).
    split; [simpl in Hb; lia|]. split.
    + intros Hlen. apply cachedCheck_settles_any.
      replace (maxRetries + 1 - 0)%Z with (maxRetries + 1)%Z by lia.
      exact Hlen.
    + intros e Hthrow.
      destruct (cachedCheck_throw_at u maxRetries sched e 0%Z 0%nat s Hthrow)
        as (He & Hat & Hmiss).
      split; [exact He|]. split; [|split; [reflexivity | exact Hmiss]].
      rewrite Hat. simpl. f_equal. lia.
Qed.

End WaitingMore.

(* ===================================================================== *)
(** * Acquisition and the cache together                                  *)
(* ===================================================================== *)

Lemma closeWriter_In (u v : string) (ws : list string) :
  In v (closeWriter u ws) -> In v ws.
Proof.
  induction ws as [|w ws IH]; simpl; [trivial|].
  destruct (String.eqb w u); [now right|].
  intros [<- | Hin]; [now left | right; now apply IH].
Qed.

Lemma closeWriter_head (u : string) (ws : list string) :
  closeWriter u (u :: ws) = ws.
Proof. simpl. now rewrite String.eqb_refl. Qed.

Lemma nextBestFormat_finite_some (first : videoFormat)
      (rest : list videoFormat) :
  live first = false ->
  (exists format, In format (first :: rest)
                  /\ JS.truthy (averageBitrate format) = true) ->
  exists chosen,
    GetStream.nextBestFormat (first :: rest) = inr (Some chosen)
    /\ In chosen (first :: rest)
    /\ JS.truthy (averageBitrate chosen) = true.
Proof.
  intros Hlive (format & Hin & Havg).
  unfold GetStream.nextBestFormat. rewrite Hlive.
  set (cmp := fun a b : videoFormat =>
                JS.sub (averageBitrate b) (averageBitrate a)).
  set (kept := List.filter (fun f => JS.truthy (averageBitrate f))
                           (first :: rest)).
  assert (Hkept : forall f, In f (JS.sort cmp kept)
                            -> In f (first :: rest)
                               /\ JS.truthy (averageBitrate f) = true).
  { intros f Hf. apply (proj1 (sort_In cmp f kept)) in Hf.
    unfold kept in Hf. now apply filter_In in Hf. }
  assert (Hsome : In format (JS.sort cmp kept)).
  { apply (proj2 (sort_In cmp format kept)). unfold kept.
    apply filter_In. now split. }
  destruct (List.find (fun f => negb (JS.truthy (bitrate f)))
                      (JS.sort cmp kept)) as [chosen|] eqn:Hfind.
  - exists chosen. split; [reflexivity|].
    apply Hkept. now destruct (find_some _ _ Hfind).
  - destruct (JS.sort cmp kept) as [|chosen tl] eqn:Hsorted;
      [destruct Hsome|].
    exists chosen. split; [reflexivity|]. apply Hkept. now left.
Qed.

Section AcquireAndCache.

Variable hasha : string -> string.
Variable getInfo : string -> option videoInfo.

Lemma fsEvent_needs_writer (final : string) (e : FsEvent) (s : State) :
  (forall v, In v (writers s) -> getCachedPath hasha v s <> final) ->
  final ∉ fs s ->
  (forall v, In v (writers (fsEvent hasha e s)) ->
             getCachedPath hasha v (fsEvent hasha e s) <> final)
  /\ final ∉ fs (fsEvent hasha e s).
Proof.
  intros Hnone Habsent. unfold fsEvent.
  destruct (existsb (String.eqb (eventUrl e)) (writers s)) eqn:Hopen; simpl;
    [|now split].
  apply existsb_exists in Hopen as (w & Hw & Heq).
  apply String.eqb_eq in Heq. subst w.
  destruct e as [v|v|v|v]; simpl in *.
  - now split.
  - split; [|assumption]. intros w Hin. apply Hnone.
    now apply closeWriter_In in Hin.
  - destruct (rename _ _ (fs s)) as [files|] eqn:Hren; simpl.
    + split.
      * intros w Hin. apply Hnone. now apply closeWriter_In in Hin.
      * rewrite (rename_elem _ _ final _ _ Hren).
        intros [Heq | [Hin _]]; [|now apply Habsent].
        now apply (Hnone v Hw).
    + split; [|assumption]. intros w Hin. apply Hnone.
      now apply closeWriter_In in Hin.
  - split; [|assumption]. intros w Hin. apply Hnone.
    now apply closeWriter_In in Hin.
Qed.

Lemma fsEvents_need_writer (final : string) (es : list FsEvent) :
  forall s : State,
    (forall v, In v (writers s) -> getCachedPath hasha v s <> final) ->
    final ∉ fs s ->
    final ∉ fs (fsEvents hasha es s).
Proof.
  induction es as [|e es IH]; intros s Hnone Habsent; [assumption|].
  unfold fsEvents in *. simpl.
  destruct (fsEvent_needs_writer final e s Hnone Habsent) as [Hnone' Habsent'].
  now apply IH.
Qed.

(** X17.  Live content is never cached: [getStream] on a url whose video
    is marked as live content leaves the state as it is (no temp file,
    no writer), and if no open writer targets the cache path of the url,
    no stream event can make the existence check true afterwards. *)
Theorem live_content_is_never_cached (u : string) (s : State)
        (info : videoInfo) :
  getInfo u = Some info ->
  isLiveContent info = true ->
  isCached hasha u s = false ->
  (forall v, In v (writers s) ->
             getCachedPath hasha v s <> getCachedPath hasha u s) ->
  snd (getStream hasha getInfo u s) = s
  /\ forall events : list FsEvent,
       isCached hasha u
         (fsEvents hasha events (snd (getStream hasha getInfo u s))) = false.
Proof.
  intros Hinfo Hlive Hmiss Hnone.
  assert (Hsame : snd (getStream hasha getInfo u s) = s).
  { unfold getStream. rewrite Hmiss, Hinfo, Hlive.
    destruct (List.find GetStream.filter (formats info)); [reflexivity|].
    destruct (GetStream.nextBestFormat (formats info)) as [e|[format|]];
      reflexivity. }
  split; [exact Hsame|]. intros events. rewrite Hsame.
  apply isCached_false.
  rewrite (session_getCachedPath hasha u _ _ (fsEvents_session hasha events s)).
  apply fsEvents_need_writer; [exact Hnone | now apply isCached_false].
Qed.

(** X18.  Download, then replay from the cache: when [getStream] has
    returned a stream for content that is not live, the ['finish'] of
    its cache writer makes the url cached, and the next [getStream] for
    that url returns the cache path without asking the remote source and
    without touching the state. *)
Theorem download_then_replay_from_cache (u : string) (s : State)
        (info : videoInfo) (r : Readable) :
  isCached hasha u s = false ->
  getInfo u = Some info ->
  isLiveContent info = false ->
  fst (getStream hasha getInfo u s) = Ok (FromStream r) ->
  let s1 := snd (getStream hasha getInfo u s) in
  let s2 := fsEvent hasha (Finish u) s1 in
  In u (writers s1)
  /\ isCached hasha u s2 = true
  /\ getStream hasha getInfo u s2
     = (Ok (FromPath (getCachedPath hasha u s)), s2).
Proof.
  intros Hmiss Hinfo Hlive Hok s1 s2.
  assert (Hs1 : s1 = createWriteStream hasha u s).
  { subst s1. revert Hok. unfold getStream. rewrite Hmiss, Hinfo, Hlive.
    destruct (List.find GetStream.filter (formats info)); [reflexivity|].
    destruct (GetStream.nextBestFormat (formats info)) as [e|[format|]];
      [discriminate | reflexivity | discriminate]. }
  assert (Hopen : In u (writers s1)) by (rewrite Hs1; now left).
  assert (Htemp : getCachedPathTemp hasha u ∈ fs s1).
  { rewrite Hs1. simpl. apply elem_of_union. left.
    now apply elem_of_singleton. }
  assert (Hhit : isCached hasha u s2 = true)
    by now apply finish_publishes.
  split; [exact Hopen|]. split; [exact Hhit|].
  unfold getStream. rewrite Hhit. f_equal. f_equal.
  subst s2. rewrite (session_getCachedPath hasha u _ _
                       (fsEvent_session hasha _ s1)).
  now rewrite Hs1.
Qed.

(** X19.  A finite source with no native format but at least one format
    that reports an average bitrate is transcoded: [getStream] returns a
    capacitor stream fed by ffmpeg, whose input is the url of one of the
    formats that report an average bitrate, with the reconnect options;
    and the cache writer is opened unless the content is live. *)
Theorem non_native_source_is_transcoded (u : string) (s : State)
        (info : videoInfo) (first : videoFormat) (rest : list videoFormat) :
  isCached hasha u s = false ->
  getInfo u = Some info ->
  formats info = first :: rest ->
  live first = false ->
  (forall format, In format (first :: rest) -> ~ isNative format) ->
  (exists format, In format (first :: rest)
                  /\ JS.truthy (averageBitrate format) = true) ->
  exists chosen,
    In chosen (first :: rest)
    /\ JS.truthy (averageBitrate chosen) = true
    /\ getStream hasha getInfo u s
       = (Ok (FromStream
                (capacitorReadStream
                   (ffmpegOpus (f_url chosen)
                      ["-reconnect"; "1"; "-reconnect_streamed"; "1";
                       "-reconnect_delay_max"; "5"]))),
          if isLiveContent info then s else createWriteStream hasha u s)
    /\ transcoded (capacitorReadStream
                     (ffmpegOpus (f_url chosen) GetStream.reconnectOptions))
       = true.
Proof.
  intros Hmiss Hinfo Hformats Hlive Hnone Hsome.
  destruct (nextBestFormat_finite_some first rest Hlive Hsome)
    as (chosen & Hnext & Hin & Havg).
  assert (Hfind : List.find GetStream.filter (formats info) = None).
  { destruct (List.find GetStream.filter (formats info)) as [format|] eqn:Hf;
      [|reflexivity].
    destruct (find_some _ _ Hf) as [Hfin Hok]. rewrite Hformats in Hfin.
    apply filter_isNative in Hok. destruct (Hnone format Hfin Hok). }
  exists chosen. split; [exact Hin|]. split; [exact Havg|].
  split; [|reflexivity].
  unfold getStream. rewrite Hmiss, Hinfo, Hfind, Hformats, Hnext.
  destruct (isLiveContent info); reflexivity.
Qed.

(** X20.  Two downloads of the same url at once: both writers open the
    same temp path; the first ['finish'] publishes the file, the second
    finds the temp file gone and its rename fails; the url is cached all
    the same and both writers are closed. *)
Theorem double_download_publishes_once (u : string) (s : State) :
  let s' := cacheSteps hasha
              [OpenWriter u; OpenWriter u;
               StreamEvent (Finish u); StreamEvent (Finish u)] s in
  isCached hasha u s' = true
  /\ writers s' = writers s
  /\ (getCachedPathTemp hasha u <> getCachedPath hasha u s ->
      (getCachedPathTemp hasha u ∉ fs s')
      /\ rename (getCachedPathTemp hasha u) (getCachedPath hasha u s)
                (fs (cacheSteps hasha
                       [OpenWriter u; OpenWriter u; StreamEvent (Finish u)] s))
         = None).
Proof.
  set (temp := getCachedPathTemp hasha u).
  set (final := getCachedPath hasha u s).
  set (s2 := cacheSteps hasha [OpenWriter u; OpenWriter u] s).
  assert (Hw2 : writers s2 = u :: u :: writers s) by reflexivity.
  assert (Hf2 : temp ∈ fs s2).
  { unfold s2, cacheSteps. simpl. apply elem_of_union. left.
    now apply elem_of_singleton. }
  assert (Hdir2 : getCachedPath hasha u s2 = final) by reflexivity.
  assert (Hs3 : fsEvent hasha (Finish u) s2
                = set_fs ({[final]} ∪ (fs s2 ∖ {[temp]}))
                    (set_writers (u :: writers s) s2)).
  { unfold fsEvent. simpl eventUrl. rewrite Hw2. simpl existsb.
    rewrite String.eqb_refl. simpl. rewrite String.eqb_refl.
    fold temp. rewrite Hdir2. unfold rename.
    now rewrite (bool_decide_eq_true_2 _ Hf2). }
  set (s3 := fsEvent hasha (Finish u) s2) in *.
  assert (Hfinal3 : final ∈ fs s3).
  { rewrite Hs3. simpl. apply elem_of_union. left.
    now apply elem_of_singleton. }
  assert (Hw3 : writers s3 = u :: writers s) by now rewrite Hs3.
  assert (Hdir3 : getCachedPath hasha u s3 = final) by now rewrite Hs3.
  assert (Hs4 : writers (fsEvent hasha (Finish u) s3) = writers s
                /\ final ∈ fs (fsEvent hasha (Finish u) s3)
                /\ (temp <> final ->
                    (temp ∉ fs (fsEvent hasha (Finish u) s3))
                    /\ rename temp final (fs s3) = None)).
  { unfold fsEvent. simpl eventUrl. rewrite Hw3. simpl existsb.
    rewrite String.eqb_refl. simpl. rewrite String.eqb_refl.
    fold temp. rewrite Hdir3.
    assert (Hgone : temp <> final -> temp ∉ fs s3).
    { intros Hne. rewrite Hs3. simpl.
      rewrite elem_of_union, elem_of_singleton, elem_of_difference,
        elem_of_singleton.
      intros [Heq | [_ Hnot]]; [now apply Hne | now apply Hnot]. }
    destruct (rename temp final (fs s3)) as [files|] eqn:Hren; simpl.
    - split; [reflexivity|]. split.
      + rewrite (rename_elem _ _ final _ _ Hren). now left.
      + intros Hne. exfalso. unfold rename in Hren.
        rewrite (bool_decide_eq_false_2 _ (Hgone Hne)) in Hren. discriminate.
    - split; [reflexivity|]. split; [exact Hfinal3|].
      intros Hne. split; [now apply Hgone | reflexivity]. }
  destruct Hs4 as (Hw4 & Hfinal4 & Hrest).
  change (cacheSteps hasha
            [OpenWriter u; OpenWriter u;
             StreamEvent (Finish u); StreamEvent (Finish u)] s)
    with (fsEvent hasha (Finish u) s3).
  change (cacheSteps hasha
            [OpenWriter u; OpenWriter u; StreamEvent (Finish u)] s)
    with s3.
  cbv zeta. split.
  - apply isCached_true.
    rewrite (session_getCachedPath hasha u _ _ (fsEvent_session hasha _ s3)).
    now rewrite Hdir3.
  - split; [exact Hw4 | exact Hrest].
Qed.

End AcquireAndCache.

(* ===================================================================== *)
(** * The further properties on concrete runs                             *)
(* ===================================================================== *)

Lemma status_never_returns_to_disconnected_sample :
  status Sample.playingA <> DISCONNECTED
  /\ status (steps Sample.hasha Sample.getInfo
               [OpPause; OpDisconnect; OpConnectionLost; OpSeek [] 4]
               Sample.playingA) <> DISCONNECTED.
Proof.
  assert (H : status Sample.playingA <> DISCONNECTED) by discriminate.
  split; [exact H|].
  exact (status_never_returns_to_disconnected Sample.hasha Sample.getInfo
           [OpPause; OpDisconnect; OpConnectionLost; OpSeek [] 4]
           Sample.playingA H).
Defined.

Lemma one_tick_per_second_sample :
  getPosition
    (second (steps Sample.hasha Sample.getInfo
               [OpConnect; OpPlay []; OpPlay []; OpSeek [] 7; OpPlay []]
               Sample.fresh))
  = (getPosition
       (steps Sample.hasha Sample.getInfo
          [OpConnect; OpPlay []; OpPlay []; OpSeek [] 7; OpPlay []]
          Sample.fresh)
     + if tracking
            (steps Sample.hasha Sample.getInfo
               [OpConnect; OpPlay []; OpPlay []; OpSeek [] 7; OpPlay []]
               Sample.fresh)
       then 1 else 0)%Z.
Proof.
  exact (proj2 (one_tick_per_second Sample.hasha Sample.getInfo
                  [OpConnect; OpPlay []; OpPlay []; OpSeek [] 7; OpPlay []]
                  [Sample.songA; Sample.songB] "/data/cache" ∅)).
Defined.

Lemma pause_then_play_resumes_sample :
  status Sample.threeSecondsIn = PLAYING
  /\ voiceConnection Sample.threeSecondsIn <> None
  /\ dispatcher Sample.threeSecondsIn = Some Sample.dispatcherA
  /\ fst (play Sample.hasha Sample.getInfo []
            (snd (pause Sample.threeSecondsIn))) = Ok tt
  /\ getPosition (snd (play Sample.hasha Sample.getInfo []
                         (snd (pause Sample.threeSecondsIn)))) = 3%Z
  /\ tracking (snd (play Sample.hasha Sample.getInfo []
                      (snd (pause Sample.threeSecondsIn)))) = false.
Proof.
  assert (H1 : status Sample.threeSecondsIn = PLAYING) by reflexivity.
  assert (H2 : voiceConnection Sample.threeSecondsIn <> None) by discriminate.
  assert (H3 : dispatcher Sample.threeSecondsIn = Some Sample.dispatcherA)
    by reflexivity.
  destruct (pause_then_play_resumes Sample.hasha Sample.getInfo []
              Sample.threeSecondsIn Sample.dispatcherA H1 H2 H3)
    as (_ & Hok & _ & _ & Hpos & _ & _ & _ & Htrack).
  split; [exact H1|]. split; [exact H2|]. split; [exact H3|].
  split; [exact Hok|]. split; [rewrite Hpos; reflexivity | exact Htrack].
Defined.

Lemma play_after_connection_loss_sample :
  status Sample.cachedThreeSecondsIn = PLAYING
  /\ voiceConnection Sample.cachedThreeSecondsIn <> None
  /\ play Sample.hasha Sample.getInfoDown []
          (snd (onDisconnect Sample.cachedThreeSecondsIn))
     = seek Sample.hasha [] 3
            (snd (onDisconnect Sample.cachedThreeSecondsIn)).
Proof.
  assert (H1 : status Sample.cachedThreeSecondsIn = PLAYING) by reflexivity.
  assert (H2 : voiceConnection Sample.cachedThreeSecondsIn <> None)
    by discriminate.
  split; [exact H1|]. split; [exact H2|].
  destruct (play_after_connection_loss Sample.hasha Sample.getInfoDown []
              Sample.cachedThreeSecondsIn H1 H2)
    as (_ & _ & _ & _ & _ & Hplay).
  exact Hplay.
Defined.

Lemma disconnect_keeps_connection_field_sample :
  voiceConnection Sample.threeSecondsIn
  = Some {| vc_joined := true; vc_disconnectListeners := 1 |}
  /\ voiceConnection (snd (disconnect Sample.threeSecondsIn))
     = Some {| vc_joined := false; vc_disconnectListeners := 1 |}
  /\ status (snd (disconnect Sample.threeSecondsIn)) = PAUSED.
Proof.
  assert (H : voiceConnection Sample.threeSecondsIn
              = Some {| vc_joined := true; vc_disconnectListeners := 1 |})
    by reflexivity.
  destruct (proj2 (proj2 (disconnect_keeps_connection_field
                            Sample.threeSecondsIn)) _ H)
    as (Hvc & Hst & _).
  split; [exact H|]. split; [exact Hvc | exact Hst].
Defined.

Lemma seek_fails_in_three_ways_sample :
  fst (seek Sample.hasha [] 5 Sample.joinedEmpty) = Throw NoCurrentSongError
  /\ snd (seek Sample.hasha [] 5 Sample.joinedEmpty) = Sample.joinedEmpty
  /\ fst (seek Sample.hasha (Sample.quiet 51) 5 Sample.joined)
     = Throw CacheTimeoutError
  /\ isCached Sample.hasha "a"
       (snd (seek Sample.hasha (Sample.quiet 51) 5 Sample.joined))
     = false.
Proof.
  assert (H1 : fst (seek Sample.hasha [] 5 Sample.joinedEmpty)
               = Throw NoCurrentSongError) by reflexivity.
  assert (H2 : fst (seek Sample.hasha (Sample.quiet 51) 5 Sample.joined)
               = Throw CacheTimeoutError) by (vm_compute; reflexivity).
  pose proof (seek_fails_in_three_ways Sample.hasha [] 5 Sample.joinedEmpty
                _ H1) as Hkind.
  pose proof (seek_fails_in_three_ways Sample.hasha (Sample.quiet 51) 5
                Sample.joined _ H2) as Hlate.
  split; [exact H1|]. split.
  - destruct Hkind as [(He & _) | [(_ & _ & _ & Hs) | (He & _)]];
      [discriminate He | exact Hs | discriminate He].
  - split; [exact H2|].
    destruct Hlate as [(He & _) | [(He & _) | (_ & _ & _ & Hsong)]];
      [discriminate He | discriminate He |].
    destruct Hsong as (song & Hhead & _ & Hstill).
    injection Hhead as <-. exact Hstill.
Defined.


Lemma forwardSeek_does_not_clamp_sample :
  option_map d_seek
    (dispatcher (snd (forwardSeek Sample.hasha [] (-10)
                                  Sample.cachedThreeSecondsIn)))
  = Some (Some (-7)%Z)
  /\ getPosition (snd (forwardSeek Sample.hasha [] (-10)
                                   Sample.cachedThreeSecondsIn)) = (-7)%Z.
Proof.
  destruct (forwardSeek_does_not_clamp Sample.hasha [] (-10)
              Sample.cachedThreeSecondsIn
              (snd (forwardSeek Sample.hasha [] (-10)
                                Sample.cachedThreeSecondsIn)) eq_refl)
    as [Hseek Hpos].
  split; [exact Hseek|]. apply Hpos. discriminate.
Defined.


Lemma play_cached_head_is_local_sample :
  play Sample.hasha Sample.getInfo [] Sample.joinedCachedA
  = play Sample.hasha Sample.getInfoDown [] Sample.joinedCachedA
  /\ fst (play Sample.hasha Sample.getInfo [] Sample.joinedCachedA) = Ok tt
  /\ writers (snd (play Sample.hasha Sample.getInfo [] Sample.joinedCachedA))
     = [].
Proof.
  destruct (play_cached_head_is_local Sample.hasha Sample.getInfo
              Sample.getInfoDown [] Sample.joinedCachedA Sample.songA
              {| vc_joined := true; vc_disconnectListeners := 0 |})
    as (Heq & Hok & _ & _ & Hw & _);
    [discriminate | reflexivity | reflexivity | reflexivity |].
  split; [exact Heq|]. split; [exact Hok | exact Hw].
Defined.

Lemma play_uncached_head_streams_sample :
  exists info r,
    Sample.getInfo "a" = Some info
    /\ option_map d_input (dispatcher Sample.playingA)
       = Some (FromStream (capacitorReadStream r))
    /\ option_map d_type (dispatcher Sample.playingA)
       = Some (Some "webm/opus")
    /\ option_map d_seek (dispatcher Sample.playingA) = Some None
    /\ (isLiveContent info = false ->
        writers Sample.playingA = "a" :: writers Sample.joined)
    /\ (isLiveContent info = true ->
        fs Sample.playingA = fs Sample.joined
        /\ writers Sample.playingA = writers Sample.joined).
Proof.
  apply (play_uncached_head_streams Sample.hasha Sample.getInfo []
           Sample.joined Sample.playingA Sample.songA).
  - discriminate.
  - reflexivity.
  - reflexivity.
  - reflexivity.
Defined.

Lemma first_play_starts_at_zero_sample :
  getPosition Sample.playingA = 0%Z
  /\ status Sample.playingA = PLAYING
  /\ tracking Sample.playingA = true
  /\ option_map d_seek (dispatcher Sample.playingA) = Some None
  /\ getPosition (second Sample.playingA) = 1%Z.
Proof.
  apply (first_play_starts_at_zero Sample.hasha Sample.getInfo []
           [Sample.songA; Sample.songB] "/data/cache" ∅ Sample.playingA).
  reflexivity.
Defined.

Lemma speaking_listener_idle_sample :
  onSpeaking Sample.hasha Sample.getInfo [] true Sample.threeSecondsIn
  = (Ok tt, Sample.threeSecondsIn)
  /\ status Sample.threeSecondsIn = PLAYING
  /\ queue (snd (onSpeaking Sample.hasha Sample.getInfo [] false
                   (snd (pause Sample.threeSecondsIn))))
     = [Sample.songA; Sample.songB].
Proof.
  destruct (speaking_listener_idle Sample.hasha Sample.getInfo [] true
              Sample.threeSecondsIn) as [Hidle Hpause].
  assert (Hst : status Sample.threeSecondsIn = PLAYING) by reflexivity.
  split; [apply Hidle; now left|]. split; [exact Hst|].
  rewrite (Hpause Hst). reflexivity.
Defined.

Lemma settled_after_51_firings_sample :
  (50 < length (Sample.quiet 51))%nat
  /\ fst (seek Sample.hasha (Sample.quiet 51) 5 Sample.joined) <> Pending
  /\ fst (forwardSeek Sample.hasha (Sample.quiet 51) 5 Sample.joined)
     <> Pending.
Proof.
  assert (H : (50 < length (Sample.quiet 51))%nat) by (simpl; lia).
  destruct (settled_after_51_firings Sample.hasha Sample.getInfo
              (Sample.quiet 51) Sample.joined H) as (Hseek & Hfwd & _).
  split; [exact H|]. split; [apply Hseek | apply Hfwd].
Defined.

Lemma waitForCache_resolves_at_first_hit_sample :
  neverCached Sample.hasha "a" [[Chunk "a"]] Sample.playingA
  /\ outcome (waitForCache_run Sample.hasha "a" 50
                ([[Chunk "a"]] ++ [Finish "a"] :: [[Chunk "b"]])
                Sample.playingA) = Ok tt
  /\ firings (waitForCache_run Sample.hasha "a" 50
                ([[Chunk "a"]] ++ [Finish "a"] :: [[Chunk "b"]])
                Sample.playingA) = 2%nat.
Proof.
  assert (Hnever : neverCached Sample.hasha "a" [[Chunk "a"]] Sample.playingA)
    by (intros [|[|k]]; reflexivity).
  destruct (waitForCache_resolves_at_first_hit Sample.hasha "a" 50
              [[Chunk "a"]] [Finish "a"] [[Chunk "b"]] Sample.playingA
              Hnever eq_refl ltac:(simpl; lia)) as (Ho & Hf & _).
  split; [exact Hnever|]. split; [exact Ho | exact Hf].
Defined.

Lemma waitForCache_bounded_sample :
  (Z.of_nat (firings (waitForCache_run Sample.hasha "a" (-4)
                        (Sample.quiet 9) Sample.joined)) <= 1)%Z
  /\ outcome (waitForCache_run Sample.hasha "a" (-4)
                (Sample.quiet 9) Sample.joined) <> Pending
  /\ outcome (waitForCache_run Sample.hasha "a" (-4)
                (Sample.quiet 9) Sample.joined) = Throw CacheTimeoutError
  /\ Z.of_nat (firings (waitForCache_run Sample.hasha "a" (-4)
                          (Sample.quiet 9) Sample.joined)) = 1%Z.
Proof.
  destruct (waitForCache_bounded Sample.hasha "a" (-4) (Sample.quiet 9)
              Sample.joined) as (Hb & Hsettled & Hthrow).
  assert (Hout : outcome (waitForCache_run Sample.hasha "a" (-4)
                            (Sample.quiet 9) Sample.joined)
                 = Throw CacheTimeoutError) by reflexivity.
  split; [exact Hb|]. split; [apply Hsettled; simpl; lia|].
  split; [exact Hout|].
  exact (proj1 (proj2 (Hthrow _ Hout))).
Defined.

Lemma live_content_is_never_cached_sample :
  Sample.getInfoLive "a"
  = Some {| formats := [Sample.liveLow; Sample.liveHls];
            isLiveContent := true |}
  /\ snd (getStream Sample.hasha Sample.getInfoLive "a" Sample.joined)
     = Sample.joined
  /\ isCached Sample.hasha "a"
       (fsEvents Sample.hasha [Chunk "a"; Finish "a"]
          (snd (getStream Sample.hasha Sample.getInfoLive "a" Sample.joined)))
     = false.
Proof.
  destruct (live_content_is_never_cached Sample.hasha Sample.getInfoLive "a"
              Sample.joined
              {| formats := [Sample.liveLow; Sample.liveHls];
                 isLiveContent := true |}) as [Hsame Hnever];
    [reflexivity | reflexivity | reflexivity | intros v [] |].
  split; [reflexivity|]. split; [exact Hsame | apply Hnever].
Defined.

Lemma download_then_replay_from_cache_sample :
  isCached Sample.hasha "a" Sample.joined = false
  /\ isCached Sample.hasha "a"
       (fsEvent Sample.hasha (Finish "a")
          (snd (getStream Sample.hasha Sample.getInfo "a" Sample.joined)))
     = true
  /\ fst (getStream Sample.hasha Sample.getInfo "a"
            (fsEvent Sample.hasha (Finish "a")
               (snd (getStream Sample.hasha Sample.getInfo "a"
                       Sample.joined))))
     = Ok (FromPath "/data/cache/61").
Proof.
  assert (Hmiss : isCached Sample.hasha "a" Sample.joined = false)
    by reflexivity.
  destruct (download_then_replay_from_cache Sample.hasha Sample.getInfo "a"
              Sample.joined
              {| formats := [Sample.aacMp4; Sample.opusWebm];
                 isLiveContent := false |}
              (capacitorReadStream (downloadFromInfo Sample.opusWebm))
              Hmiss eq_refl eq_refl eq_refl) as (_ & Hhit & Hagain).
  split; [exact Hmiss|]. split; [exact Hhit|].
  rewrite Hagain. reflexivity.
Defined.

Lemma non_native_source_is_transcoded_sample :
  exists chosen,
    In chosen [Sample.aacMp4; Sample.vorbisWebm]
    /\ JS.truthy (averageBitrate chosen) = true
    /\ getStream Sample.hasha Sample.getInfoLegacy "a" Sample.joined
       = (Ok (FromStream
                (capacitorReadStream
                   (ffmpegOpus (f_url chosen)
                      ["-reconnect"; "1"; "-reconnect_streamed"; "1";
                       "-reconnect_delay_max"; "5"]))),
          createWriteStream Sample.hasha "a" Sample.joined)
    /\ transcoded (capacitorReadStream
                     (ffmpegOpus (f_url chosen) GetStream.reconnectOptions))
       = true.
Proof.
  apply (non_native_source_is_transcoded Sample.hasha Sample.getInfoLegacy "a"
           Sample.joined
           {| formats := [Sample.aacMp4; Sample.vorbisWebm];
              isLiveContent := false |}
           Sample.aacMp4 [Sample.vorbisWebm]).
  - reflexivity.
  - reflexivity.
  - reflexivity.
  - reflexivity.
  - intros format [<- | [<- | []]] (Hcodec & _); discriminate Hcodec.
  - exists Sample.aacMp4. split; [now left | reflexivity].
Defined.

Lemma double_download_publishes_once_sample :
  isCached Sample.hasha "a"
    (cacheSteps Sample.hasha
       [OpenWriter "a"; OpenWriter "a";
        StreamEvent (Finish "a"); StreamEvent (Finish "a")] Sample.joined)
  = true
  /\ writers (cacheSteps Sample.hasha
                [OpenWriter "a"; OpenWriter "a";
                 StreamEvent (Finish "a"); StreamEvent (Finish "a")]
                Sample.joined) = [].
Proof.
  destruct (double_download_publishes_once Sample.hasha "a" Sample.joined)
    as (Hhit & Hw & _).
  split; [exact Hhit | exact Hw].
Defined.

Lemma nextBestFormat_finite_sample :
  live Sample.aacMp4 = false
  /\ match GetStream.nextBestFormat [Sample.aacMp4; Sample.vorbisWebm] with
     | inl _ => False
     | inr None => False
     | inr (Some chosen) =>
         JS.truthy (averageBitrate chosen) = true
         /\ JS.truthy (bitrate chosen) = false
     end.
Proof.
  split; [reflexivity|].
  pose proof (nextBestFormat_finite Sample.aacMp4 [Sample.vorbisWebm] eq_refl)
    as Hspec.
  cbv zeta in Hspec.
  destruct (GetStream.nextBestFormat [Sample.aacMp4; Sample.vorbisWebm])
    as [e | [chosen|]].
  - exact Hspec.
  - destruct Hspec as ((_ & Havg) & Hnone & _).
    split; [exact Havg|].
    apply Hnone. exists Sample.vorbisWebm.
    split; [split; [right; now left | reflexivity] | reflexivity].
  - apply (Hspec Sample.aacMp4). split; [now left | reflexivity].
Defined.

Lemma nextBestFormat_live_sample :
  live Sample.liveLow = true
  /\ match GetStream.nextBestFormat [Sample.liveLow; Sample.liveHls] with
     | inl _ => False
     | inr None => False
     | inr (Some chosen) =>
         GetStream.includes GetStream.liveItags (itag chosen) = true
         /\ (audioOf Sample.liveHls <= audioOf chosen)%Z
     end.
Proof.
  split; [reflexivity|].
  pose proof (nextBestFormat_live Sample.liveLow [Sample.liveHls] eq_refl)
    as Hspec.
  cbv zeta in Hspec.
  assert (Haudio : forall format,
             In format [Sample.liveLow; Sample.liveHls] ->
             audioBitrate format <> None)
    by (intros format [<- | [<- | []]]; discriminate).
  specialize (Hspec Haudio).
  destruct (GetStream.nextBestFormat [Sample.liveLow; Sample.liveHls])
    as [e | [chosen|]].
  - exact Hspec.
  - destruct Hspec as ((_ & Hlisted) & Hmax).
    split; [exact Hlisted|].
    apply Hmax. split; [right; now left | reflexivity].
  - apply (Hspec Sample.liveHls). split; [right; now left | reflexivity].
Defined.
